(** * Position-tracking PII pipeline: a shallow embedding and its properties

    The development follows the three scripts of the pipeline:
    - [PiiIdentifier]  (pii-identifier.py): chunked classification of one
      page's tokens, the regex fallback and the write-back of annotations;
    - [StreamlitApp]   (streamlit_app.py): type normalisation, the category
      filter, the redaction report and its CSV export;
    - [Redactor]       (redactor.py): pixel-to-point geometry, clipping and
      the per-page selection of redaction rectangles.

    JSON documents are modelled as records, Python lists as [list], Python
    sets of strings as [gset string], in-place updates of a list of dicts as
    stdpp's [alter], exceptions as [option].  Python's [float] is IEEE
    binary64, i.e. Rocq's primitive [float]; the geometry is written once
    over an arithmetic interface [PyNum] and instantiated both at binary64
    and at exact rationals. *)

From Stdlib Require Import ZArith QArith Floats Lia Lqa Ascii String.
From stdpp Require Import list strings gmap pretty.

Set Warnings "-inexact-float".
Set Default Proof Using "Type".

(* ================================================================== *)
(** * Python built-ins used by the scripts *)
(* ================================================================== *)

Module Py.

(** Strings are byte strings; the type tags and category names handled by
    the pipeline are ASCII, and [lower]/[strip] act on ASCII letters and
    ASCII white space as [str.lower] and [str.strip] do there.  On a string
    with a character outside ASCII, [str.lower] also folds letters such as
    U+212A and [str.strip] also strips blanks such as U+00A0; [lower] and
    [strip] below leave those bytes alone, so they stand for the Python
    methods on the strings that [is_ascii] accepts. *)
Definition is_upper (c : ascii) : bool :=
  let n := nat_of_ascii c in (65 <=? n)%nat && (n <=? 90)%nat.

Definition lower_char (c : ascii) : ascii :=
  if is_upper c then ascii_of_nat (nat_of_ascii c + 32) else c.

Fixpoint lower (s : string) : string :=
  match s with
  | EmptyString => EmptyString
  | String c r => String (lower_char c) (lower r)
  end.

(** [str.isspace] on the ASCII range: TAB, LF, VT, FF, CR, FS, GS, RS, US
    and the blank. *)
Definition isspace (c : ascii) : bool :=
  let n := nat_of_ascii c in
  ((9 <=? n)%nat && (n <=? 13)%nat) || ((28 <=? n)%nat && (n <=? 32)%nat).

Fixpoint lstrip (s : string) : string :=
  match s with
  | EmptyString => EmptyString
  | String c r => if isspace c then lstrip r else s
  end.

Fixpoint rstrip (s : string) : string :=
  match s with
  | EmptyString => EmptyString
  | String c r =>
      match rstrip r with
      | EmptyString => if isspace c then EmptyString else String c EmptyString
      | r' => String c r'
      end
  end.

Definition strip (s : string) : string := rstrip (lstrip s).


(** Truthiness of a string: [if s] / [if not s]. *)
Definition truthy (s : string) : bool :=
  match s with EmptyString => false | _ => true end.

(** [x or default] on an optional string: [None] and the empty string are
    both falsy. *)
Definition str_or (x : option string) (default : string) : string :=
  match x with
  | Some s => if truthy s then s else default
  | None => default
  end.

(** [sub in s] on strings. *)
Fixpoint contains (sub s : string) : bool :=
  String.prefix sub s ||
  match s with
  | EmptyString => false
  | String _ r => contains sub r
  end.

(** [sep.join(parts)]. *)
Definition join (sep : string) (parts : list string) : string :=
  String.concat sep parts.

(** [s.split(",")] for a one-character separator: never returns an empty
    list, keeps empty pieces. *)
Fixpoint split (sep : ascii) (s : string) : list string :=
  match s with
  | EmptyString => [EmptyString]
  | String c r =>
      if Ascii.eqb c sep then EmptyString :: split sep r
      else match split sep r with
           | p :: ps => String c p :: ps
           | [] => [String c EmptyString]
           end
  end.

(** [seq[i:j]] for [0 <= i], [0 <= j]: slicing clips at the end of the
    list and is empty when [j <= i]. *)
Definition slice {A} (l : list A) (i j : nat) : list A :=
  take (j - i) (drop i l).

(** The iteration of [range(start, stop, step)] for [step > 0]: yield [i]
    while [i < stop], then advance by [step].  [fuel] bounds the number
    of iterations. *)
Fixpoint range_from (fuel i stop step : nat) : list nat :=
  match fuel with
  | O => []
  | S fuel' =>
      if (i <? stop)%nat then i :: range_from fuel' (i + step) stop step
      else []
  end.

(** [range(0, stop, step)]: [ValueError] for a zero step ([None]), empty
    for a negative one; a positive step visits at most [stop] values. *)
Definition range_step (stop : nat) (step : Z) : option (list nat) :=
  if (step =? 0)%Z then None
  else if (step <? 0)%Z then Some []
  else Some (range_from stop 0 stop (Z.to_nat step)).

(** [enumerate(l)]. *)
Definition enumerate {A} (l : list A) : list (nat * A) :=
  zip (seq 0 (length l)) l.

End Py.

(* ================================================================== *)
(** * The documents exchanged between the stages *)
(* ================================================================== *)

(** [bbox]: [{x, y, w, h}], pixel space, top-left origin. *)
Record BBox (A : Type) := mkBBox { bx : A; by_ : A; bw : A; bh : A }.
Arguments mkBBox {A} _ _ _ _.
Arguments bx {A} _.
Arguments by_ {A} _.
Arguments bw {A} _.
Arguments bh {A} _.

(** The [pii] dict of a word.  [source] is a key the report builder reads
    with [pii.get("source")]; the classifier never writes it. *)
Record Annotation := mkAnnotation {
  is_pii : bool;
  type : option string;
  pii_source : option string
}.

(** One entry of a page's [words] list.  [pos-ocr.py] writes [text], [bbox]
    (integers), [conf] (an integer) and [source]; [pii] is absent in a
    positions document and present in a classified one.  [box] and
    [bbox_px] are the alternative keys the report builder falls back to. *)
Record Word := mkWord {
  text : string;
  bbox : option (BBox Z);
  box : option (BBox Z);
  bbox_px : option (BBox Z);
  conf : option Z;
  source : string;
  pii : option Annotation
}.

Record Page := mkPage {
  page : Z;
  width : Z;
  height : Z;
  words : list Word
}.

(** The top-level [{"pages": [...]}]. *)
Definition Document := list Page.

#[global] Instance BBox_eq_dec {A} `{EqDecision A} : EqDecision (BBox A).
Proof. solve_decision. Defined.
#[global] Instance Annotation_eq_dec : EqDecision Annotation.
Proof. solve_decision. Defined.
#[global] Instance Word_eq_dec : EqDecision Word.
Proof. solve_decision. Defined.
#[global] Instance Page_eq_dec : EqDecision Page.
Proof. solve_decision. Defined.

Definition set_pii (a : Annotation) (w : Word) : Word :=
  {| text := text w; bbox := bbox w; box := box w; bbox_px := bbox_px w;
     conf := conf w; source := source w; pii := Some a |}.

(** [pii.get("is_pii")] after [pii = w.get("pii") or {}]. *)
Definition flagged (w : Word) : bool :=
  match pii w with
  | Some a => is_pii a
  | None => false
  end.

(** [pii.get("type")] after [pii = w.get("pii") or {}]. *)
Definition pii_type (w : Word) : option string :=
  match pii w with
  | Some a => type a
  | None => None
  end.

(* ================================================================== *)
(** * pii-identifier.py *)
(* ================================================================== *)

Module PiiIdentifier.

(** One [{"index": i, "type": t}] entry of a classification result. *)
Record Redaction := mkRedaction { r_index : Z; r_type : string }.

#[global] Instance Redaction_eq_dec : EqDecision Redaction.
Proof. solve_decision. Defined.

(** The three compiled patterns, through their [search] method.  The
    regular-expression engine is a library; the fallback below only asks
    it whether a pattern occurs in a string. *)
Class Patterns := {
  EMAIL_RE : string -> bool;
  PHONE_RE : string -> bool;
  IPV4_RE : string -> bool
}.

Definition ADDR_CUES : list string :=
  ["street"; "st."; "road"; "rd."; "avenue"; "ave"; "sector"; "block";
   "phase"; "colony"; "lane"; "ln"; "plot"; "apt"; "flat"; "suite"; "zip";
   "pincode"; "pin"; "city"; "state"].

Section Fallback.
Context `{Patterns}.

(** The body of the first loop of [regex_pii_indices] for position [i]:
    the type appended to [out], if any. *)
Definition regex_type_at (words : list Word) (i : nat) (w : Word)
  : option string :=
  let win := 5%nat in
  let t := Py.strip (text w) in
  if negb (Py.truthy t) then None
  else if EMAIL_RE t then Some "email"
  else if IPV4_RE t then Some "ip"
  else
    let span :=
      Py.join " " (text <$> Py.slice words i (Nat.min (i + 3) (length words))) in
    if PHONE_RE span then Some "phone"
    else
      let window :=
        Py.join " "
          ((fun w' => Py.lower (text w')) <$>
             Py.slice words (i - win) (Nat.min (length words) (i + win))) in
      if existsb (fun cue => Py.contains cue window) ADDR_CUES
      then Some "address"
      else None.

Definition regex_scan (words : list Word) : list Redaction :=
  foldl (fun out '(i, w) =>
           match regex_type_at words i w with
           | Some ty => out ++ [mkRedaction (Z.of_nat i) ty]
           | None => out
           end)
        [] (Py.enumerate words).

(** The second loop: "distinct by index". *)
Definition dedup_step (st : gset Z * list Redaction) (r : Redaction)
  : gset Z * list Redaction :=
  let '(seen, dedup) := st in
  if bool_decide (r_index r ∈ seen) then (seen, dedup)
  else ({[ r_index r ]} ∪ seen, dedup ++ [r]).

Definition distinct_by_index (out : list Redaction) : list Redaction :=
  snd (foldl dedup_step (∅, []) out).

Definition regex_pii_indices (words : list Word) : list Redaction :=
  distinct_by_index (regex_scan words).
End Fallback.

(** What the HTTP exchange of [_call_gemini] can come to. *)
Record RawEntry := mkRawEntry {
  raw_index : option Z;       (* [r.get("index")] when it is an [int] *)
  raw_type : option string    (* [r.get("type")], [None]: key absent *)
}.

Inductive Reply :=
| ReplyError                      (* the request, the status check or the
                                     decoding of the envelope raised *)
| ReplyNoText                     (* [text] is empty *)
| ReplyBadJson                    (* something raised inside the [try] *)
| ReplyRedactions (red : list RawEntry).

(** [_call_gemini]: [None] is a propagated exception. *)
Definition _call_gemini (reply : Reply) (words : list Word)
  : option (list Redaction) :=
  match reply with
  | ReplyError => None
  | ReplyNoText => Some []
  | ReplyBadJson => Some []
  | ReplyRedactions red =>
      Some (omap (fun r =>
                    let typ := default "other" (raw_type r) in
                    match raw_index r with
                    | Some idx =>
                        if (0 <=? idx)%Z && (idx <? Z.of_nat (length words))%Z
                        then Some (mkRedaction idx typ)
                        else None
                    | None => None
                    end) red)
  end.

(** [_chunk]: [None] is the [ValueError] of [range] for a zero size. *)
Definition _chunk {A} (seq : list A) (size : Z)
  : option (list (nat * list A)) :=
  (fun starts : list nat =>
     (fun i => (i, Py.slice seq i (i + Z.to_nat size))) <$> starts)
    <$> Py.range_step (length seq) size.

Definition mark_one (start : nat) (words : list Word) (r : Redaction)
  : list Word :=
  let idx := (Z.of_nat start + r_index r)%Z in
  if (0 <=? idx)%Z && (idx <? Z.of_nat (length words))%Z
  then alter (set_pii (mkAnnotation true (Some (r_type r)) None))
             (Z.to_nat idx) words
  else words.

Definition _mark (words : list Word) (red : list Redaction) (start : nat)
  : list Word :=
  foldl (mark_one start) words red.

(** What happened for one chunk of [tag_page]. *)
Record ChunkTrace := mkChunkTrace {
  ct_start : nat;
  ct_remote : option (list Redaction);    (* result of [_call_gemini] *)
  ct_fallback : option (list Redaction);  (* result of the fallback when it ran *)
  ct_written : list Redaction             (* the [red] handed to [_mark] *)
}.

Section TagPage.
Context `{Patterns}.
(** The remote service: the reply to the request sent for the chunk
    starting at a given offset. *)
Variable remote : nat -> Reply.

(** The body of the loop of [tag_page] up to [_mark]. *)
Definition classify_chunk (start : nat) (chunk_items : list Word)
  : ChunkTrace :=
  let called := _call_gemini (remote start) chunk_items in
  let red := default [] called in
  match red with
  | [] =>
      let fb := regex_pii_indices chunk_items in
      mkChunkTrace start called (Some fb) fb
  | _ => mkChunkTrace start called None red
  end.

(** One iteration.  The chunks were sliced before the loop and hold the
    very dicts of [tagged]: what the classifiers see at this iteration
    is the current content of those positions. *)
Definition tag_step (st : list Word * list ChunkTrace)
  (c : nat * list Word) : list Word * list ChunkTrace :=
  let '(tagged, log) := st in
  let '(start, items) := c in
  let chunk_items := Py.slice tagged start (start + length items) in
  let tr := classify_chunk start chunk_items in
  (_mark tagged (ct_written tr) start, log ++ [tr]).

Definition tag_page_traced (MAX_WORDS_PER_CHUNK : Z) (words : list Word)
  : option (list Word * list ChunkTrace) :=
  let tagged := set_pii (mkAnnotation false None None) <$> words in
  foldl tag_step (tagged, []) <$> _chunk tagged MAX_WORDS_PER_CHUNK.

Definition tag_page (MAX_WORDS_PER_CHUNK : Z) (words : list Word)
  : option (list Word) :=
  fst <$> tag_page_traced MAX_WORDS_PER_CHUNK words.
End TagPage.

Section Main.
Context `{Patterns}.
(** The remote service over a whole document: the reply to the request sent
    for the chunk starting at a given offset of the page at a given position
    of the document. *)
Variable remote : nat -> nat -> Reply.

(** The loop of [main] over [pages], from the page at position [k] on:
    each page keeps [page], [width] and [height] and gets the tagged words.
    [None] is an exception of [tag_page]; nothing is written then. *)
Fixpoint tag_pages (MAX_WORDS_PER_CHUNK : Z) (k : nat) (pages : list Page)
  : option (list Page) :=
  match pages with
  | [] => Some []
  | pg :: rest =>
      match tag_page (remote k) MAX_WORDS_PER_CHUNK (words pg) with
      | None => None
      | Some tagged =>
          (fun result =>
             mkPage (page pg) (width pg) (height pg) tagged :: result)
            <$> tag_pages MAX_WORDS_PER_CHUNK (S k) rest
      end
  end.

(** [main], from the positions document read to the document written.
    [assert_env] (config.py) ends the run when the API key is empty. *)
Definition main (GEMINI_API_KEY : string) (MAX_WORDS_PER_CHUNK : Z)
    (data : Document) : option Document :=
  if negb (Py.truthy GEMINI_API_KEY) then None
  else tag_pages MAX_WORDS_PER_CHUNK 0 data.
End Main.

End PiiIdentifier.

(* ================================================================== *)
(** * streamlit_app.py *)
(* ================================================================== *)

(** A Python dict used as a [Counter]: keys in insertion order, each with
    its count. *)
Definition Counter (K : Type) := list (K * nat).

Fixpoint counter_incr {K} `{EqDecision K} (k : K) (c : Counter K)
  : Counter K :=
  match c with
  | [] => [(k, 1%nat)]
  | (k', n) :: rest =>
      if decide (k = k') then (k', S n) :: rest
      else (k', n) :: counter_incr k rest
  end.

Definition counter_sum {K} (c : Counter K) : nat := sum_list (snd <$> c).

(** [c[k]], zero for a missing key. *)
Fixpoint counter_get {K} `{EqDecision K} (k : K) (c : Counter K) : nat :=
  match c with
  | [] => 0%nat
  | (k', n) :: rest => if decide (k = k') then n else counter_get k rest
  end.

(** A value handed to [csv.writer.writerow]. *)
Inductive PyValue :=
| VNone
| VInt (z : Z)
| VFloat (z : Z)      (* [float(z)] of an integer [z] *)
| VStr (s : string).

Module StreamlitApp.

Definition _ID_ALIASES : gset string :=
  {[ "ssn"; "tax_id"; "routing_number"; "bank_account"; "client_id" ]}.

Definition _NAME_ALIASES : gset string :=
  {[ "name"; "person"; "personal_name"; "full_name"; "human_name";
     "first_name"; "last_name"; "surname"; "given_name" ]}.

(** The set literal of the second test of [_normalize_type]. *)
Definition UI_CATEGORIES : gset string :=
  {[ "email"; "phone"; "ip"; "address"; "id_number"; "password"; "other" ]}.

Definition _normalize_type (t : option string) : string :=
  match t with
  | None => "other"
  | Some s =>
      if negb (Py.truthy s) then "other"
      else
        let t := Py.strip (Py.lower s) in
        if bool_decide (t ∈ _NAME_ALIASES) then "name"
        else if bool_decide (t ∈ UI_CATEGORIES) then t
        else if bool_decide (t ∈ _ID_ALIASES) then "id_number"
        else "other"
  end.

(** The body of the inner loop of [filter_pii]. *)
Definition filter_word (keep_types : list string) (w : Word) : Word :=
  match pii w with
  | None => w
  | Some a =>
      if negb (is_pii a) then w
      else
        let t := _normalize_type (type a) in
        if bool_decide (t ∈ keep_types) then w
        else set_pii (mkAnnotation false None (pii_source a)) w
  end.

Definition filter_page (keep_types : list string) (pg : Page) : Page :=
  {| page := page pg; width := width pg; height := height pg;
     words := filter_word keep_types <$> words pg |}.

(** [filter_pii], from the document read to the document written. *)
Definition filter_pii (keep_types : list string) (data : Document)
  : Document :=
  filter_page keep_types <$> data.

(** [_safe_text] on a string. *)
Definition _safe_text (x : string) : string := Py.strip x.

(** The two [while] loops of [_collect_context] walk away from [idx] and
    keep the first [n] non-empty texts. *)
Fixpoint collect (n : nat) (ws : list Word) : list string :=
  match ws with
  | [] => []
  | w :: rest =>
      match n with
      | O => []
      | S n' =>
          let t := _safe_text (text w) in
          if Py.truthy t then t :: collect n' rest else collect n rest
      end
  end.

(** [_collect_context]: [None] is the [IndexError] of [words[idx]]. *)
Definition _collect_context (words : list Word) (idx : nat)
  (left_n right_n : nat) : option string :=
  let left := rev (collect left_n (rev (take idx words))) in
  match words !! idx with
  | None => None
  | Some w =>
      let center := _safe_text (text w) in
      let right := collect right_n (drop (S idx) words) in
      Some (Py.join " " (left ++ [center] ++ right))
  end.

Record Item := mkItem {
  it_page : Z;
  it_index : nat;
  it_type : string;
  it_source : string;
  it_text : string;
  it_confidence : option Z;       (* [float(conf)] of an integer [conf] *)
  it_bbox : option (BBox Z);
  it_page_width : Z;
  it_page_height : Z;
  it_context : string
}.

Record Summary := mkSummary {
  total : nat;
  by_type : Counter string;
  by_page : Counter Z
}.

Record Report := mkReport { summary : Summary; items : list Item }.

(** The local variables of [build_redaction_report]. *)
Record Acc := mkAcc {
  acc_items : list Item;
  acc_by_type : Counter string;
  acc_by_page : Counter Z;
  acc_total : nat
}.

(** [a or b] on two optional dicts. *)
Definition or_else {A} (a b : option A) : option A :=
  match a with Some _ => a | None => b end.

(** The item appended for the flagged word [w] at position [i]. *)
Definition make_item (pg : Page) (i : nat) (w : Word) : option Item :=
  let typ := _normalize_type (pii_type w) in
  let src :=
    _safe_text (Py.str_or (pii w ≫= pii_source) "unknown") in
  let text := _safe_text (text w) in
  let conf := conf w in
  let bbox := or_else (or_else (bbox w) (box w)) (bbox_px w) in
  (fun ctx => mkItem (page pg) i typ src text conf bbox
                     (width pg) (height pg) ctx)
    <$> _collect_context (words pg) i 3 3.

(** One iteration of the inner loop; [None] is a raised exception. *)
Definition report_word (pg : Page) (acc : option Acc) (iw : nat * Word)
  : option Acc :=
  match acc with
  | None => None
  | Some acc =>
      let '(i, w) := iw in
      if negb (flagged w) then Some acc
      else
        match make_item pg i w with
        | None => None
        | Some it =>
            Some (mkAcc (acc_items acc ++ [it])
                        (counter_incr (it_type it) (acc_by_type acc))
                        (counter_incr (page pg) (acc_by_page acc))
                        (S (acc_total acc)))
        end
  end.

Definition report_page (acc : option Acc) (pg : Page) : option Acc :=
  foldl (report_word pg) acc (Py.enumerate (words pg)).

Definition build_redaction_report (data : Document) : option Report :=
  (fun acc =>
     mkReport (mkSummary (acc_total acc) (acc_by_type acc) (acc_by_page acc))
              (acc_items acc))
    <$> foldl report_page (Some (mkAcc [] [] [] 0%nat)) data.

Definition dq : string := String (ascii_of_nat 34) EmptyString.

(** [json.dumps] of a bbox read from the document ([null] when absent):
    the keys in the order [pos-ocr.py] writes them. *)
Definition json_dumps_bbox (b : option (BBox Z)) : string :=
  match b with
  | None => "null"
  | Some b =>
      "{" +:+ dq +:+ "x" +:+ dq +:+ ": " +:+ pretty (bx b) +:+ ", "
          +:+ dq +:+ "y" +:+ dq +:+ ": " +:+ pretty (by_ b) +:+ ", "
          +:+ dq +:+ "w" +:+ dq +:+ ": " +:+ pretty (bw b) +:+ ", "
          +:+ dq +:+ "h" +:+ dq +:+ ": " +:+ pretty (bh b) +:+ "}"
  end.

Definition csv_header : list PyValue :=
  VStr <$> ["page"; "index"; "type"; "source"; "text"; "confidence";
            "bbox"; "page_width"; "page_height"; "context"].

Definition opt_float (c : option Z) : PyValue :=
  match c with Some z => VFloat z | None => VNone end.

(** The list handed to [wr.writerow] for one item. *)
Definition csv_row (r : Item) : list PyValue :=
  [ VInt (it_page r); VInt (Z.of_nat (it_index r)); VStr (it_type r);
    VStr (it_source r); VStr (it_text r); opt_float (it_confidence r);
    VStr (json_dumps_bbox (it_bbox r));
    VInt (it_page_width r); VInt (it_page_height r); VStr (it_context r) ].

(** [report_to_csv_bytes], as the sequence of rows written through
    [csv.writer]: the header, then one row per item.  The encoding of a
    row as a line of text is the csv module's. *)
Definition report_to_csv_bytes (report : Report) : list (list PyValue) :=
  csv_header :: (csv_row <$> items report).

(** The list [keep_types] built from the eight check boxes of the side bar,
    in the order of the [append] calls. *)
Definition keep_types_of (redact_names redact_email redact_phone redact_ip
    redact_address redact_id redact_password redact_other : bool)
  : list string :=
  (if redact_names then ["name"] else [])
    ++ (if redact_email then ["email"] else [])
    ++ (if redact_phone then ["phone"] else [])
    ++ (if redact_ip then ["ip"] else [])
    ++ (if redact_address then ["address"] else [])
    ++ (if redact_id then ["id_number"] else [])
    ++ (if redact_password then ["password"] else [])
    ++ (if redact_other then ["other"] else []).

End StreamlitApp.

(* ================================================================== *)
(** * redactor.py *)
(* ================================================================== *)

(** The arithmetic the geometry needs.  [num_of_int] is the conversion
    Python applies to an [int] operand that meets a [float]. *)
Class PyNum (A : Type) := {
  num_of_int : Z -> A;
  num_add : A -> A -> A;
  num_sub : A -> A -> A;
  num_mul : A -> A -> A;
  num_div : A -> A -> A;
  num_ltb : A -> A -> bool
}.

Declare Scope num_scope.
Delimit Scope num_scope with num.
Infix "+" := num_add : num_scope.
Infix "-" := num_sub : num_scope.
Infix "*" := num_mul : num_scope.
Infix "/" := num_div : num_scope.
Infix "<?" := num_ltb : num_scope.

(** Python's [float]: IEEE 754 binary64 with round-to-nearest-even.  An
    integer is converted by correct rounding (exactly below [2^53]).  Python
    raises [OverflowError] where the rounding of an [int] would leave the
    range of the doubles ([2^1024] and beyond); [num_of_int] gives an
    infinity there, so the instance stands for Python's conversion on the
    integers that convert. *)
#[global] Instance binary64 : PyNum float := {|
  num_of_int z := SF2Prim (binary_normalize prec emax z 0 false);
  num_add := PrimFloat.add;
  num_sub := PrimFloat.sub;
  num_mul := PrimFloat.mul;
  num_div := PrimFloat.div;
  num_ltb := PrimFloat.ltb
|}.

(** The exact arithmetic that binary64 approximates. *)
#[global] Instance exact : PyNum Q := {|
  num_of_int := inject_Z;
  num_add := Qplus;
  num_sub := Qminus;
  num_mul := Qmult;
  num_div := Qdiv;
  num_ltb a b := negb (Qle_bool b a)
|}.

(** [fitz.Rect]: the corners [(x0, y0)] and [(x1, y1)]. *)
Record Rect (A : Type) := mkRect { x0 : A; y0 : A; x1 : A; y1 : A }.
Arguments mkRect {A} _ _ _ _.
Arguments x0 {A} _.
Arguments y0 {A} _.
Arguments x1 {A} _.
Arguments y1 {A} _.

Module Redactor.

Definition ALL_TYPES : gset string :=
  {[ "name"; "email"; "phone"; "address"; "ip"; "id_number"; "other" ]}.

Definition TYPE_LABELS : list (string * string) :=
  [ ("name", "NAME"); ("email", "EMAIL"); ("phone", "PHONE");
    ("address", "ADDRESS"); ("ip", "IP"); ("id_number", "ID");
    ("other", "OTHER") ].

Definition label_for_type (t : option string) : string :=
  let t := Py.lower (Py.str_or t "other") in
  default "OTHER" (snd <$> List.find (fun kv => String.eqb (fst kv) t) TYPE_LABELS).

(** [parse_types]; the warning about unknown names is not modelled. *)
Definition parse_types (s : string) : gset string :=
  if String.eqb (Py.lower (Py.strip s)) "all" then ALL_TYPES
  else
    let chosen : gset string :=
      list_to_set
        ((fun t => Py.lower (Py.strip t)) <$>
           List.filter (fun t => Py.truthy (Py.strip t)) (Py.split "," s)) in
    chosen ∩ ALL_TYPES.

Section Geometry.
Context {A : Type} `{PyNum A}.
Local Open Scope num_scope.

Definition expand_bbox (b : BBox Z) (margin : A) : BBox A :=
  {| bx := num_of_int (bx b) - margin;
     by_ := num_of_int (by_ b) - margin;
     bw := num_of_int (bw b) + num_of_int 2 * margin;
     bh := num_of_int (bh b) + num_of_int 2 * margin |}.

Definition px_to_pdf_rect (bbox_px : BBox A) (scale : A) : Rect A :=
  {| x0 := bx bbox_px * scale;
     y0 := by_ bbox_px * scale;
     x1 := (bx bbox_px + bw bbox_px) * scale;
     y1 := (by_ bbox_px + bh bbox_px) * scale |}.

(** [scale = 72.0 / float(args.dpi)]: [None] is the
    [ZeroDivisionError] for a zero DPI. *)
Definition scale_of_dpi (dpi : Z) : option A :=
  if (dpi =? 0)%Z then None
  else Some (num_of_int 72 / num_of_int dpi).

(** Modelled from the spec: [fitz.Rect.intersect] of the PDF library,
    which is not part of the repository.  The spec asks the library for
    "page rectangle bounds for clipping" and calls the result of the
    clip the intersection with the page rectangle: the larger of the
    two left and top edges, the smaller of the two right and bottom
    edges. *)
Definition Rect_intersect (r page_rect : Rect A) : Rect A :=
  {| x0 := if x0 r <? x0 page_rect then x0 page_rect else x0 r;
     y0 := if y0 r <? y0 page_rect then y0 page_rect else y0 r;
     x1 := if x1 page_rect <? x1 r then x1 page_rect else x1 r;
     y1 := if y1 page_rect <? y1 r then y1 page_rect else y1 r |}.

(** Modelled from the spec: the [width] and [height] properties of
    [fitz.Rect], "zero or negative" for a degenerate rectangle. *)
Definition Rect_width (r : Rect A) : A := x1 r - x0 r.
Definition Rect_height (r : Rect A) : A := y1 r - y0 r.

Definition clamp_rect (rect page_rect : Rect A) : Rect A :=
  Rect_intersect rect page_rect.

(** The candidate rectangle of a bbox, before clipping. *)
Definition candidate_rect (b : BBox Z) (margin scale : A) : Rect A :=
  px_to_pdf_rect (expand_bbox b margin) scale.

(** [rect.width > 0 and rect.height > 0]. *)
Definition has_area (rect : Rect A) : bool :=
  (num_of_int 0 <? Rect_width rect) && (num_of_int 0 <? Rect_height rect).

(** [wtype = str(pii.get("type") or "other").lower()]. *)
Definition wtype_of (w : Word) : string :=
  Py.lower (Py.str_or (pii_type w) "other").

(** One iteration of the loop over [words] in [main]: the list [boxes]
    after the word [w]. *)
Definition box_step (wanted : gset string) (margin scale : A)
  (page_rect : Rect A) (boxes : list (Rect A * string)) (w : Word)
  : list (Rect A * string) :=
  if negb (flagged w) then boxes
  else
    let wtype := wtype_of w in
    if negb (bool_decide (wtype ∈ wanted)) then boxes
    else
      match bbox w with
      | None => boxes
      | Some b =>
          let expanded := expand_bbox b margin in
          let rect := px_to_pdf_rect expanded scale in
          let rect := clamp_rect rect page_rect in
          if has_area rect then boxes ++ [(rect, wtype)] else boxes
      end.

Definition page_boxes (wanted : gset string) (margin scale : A)
  (page_rect : Rect A) (words : list Word) : list (Rect A * string) :=
  foldl (box_step wanted margin scale page_rect) [] words.

(** The run of [main] up to the registration of the boxes: for each
    page of the JSON whose number is a page of the PDF ([doc] lists the
    page rectangles), the boxes to redact.  [None] is a crash. *)
Definition main (types : string) (dpi : Z) (margin : A)
  (doc : list (Rect A)) (pages_json : Document)
  : option (list (Z * list (Rect A * string))) :=
  let wanted := parse_types types in
  if bool_decide (wanted = ∅) then Some []
  else
    match scale_of_dpi dpi with
    | None => None
    | Some scale =>
        Some (omap (fun pinfo =>
                      let pno1 := page pinfo in
                      if (pno1 <? 1)%Z || (Z.of_nat (length doc) <? pno1)%Z
                      then None
                      else
                        (fun page_rect =>
                           (pno1, page_boxes wanted margin scale page_rect
                                             (words pinfo)))
                          <$> doc !! Z.to_nat (pno1 - 1))
                   pages_json)
    end.
End Geometry.

End Redactor.

(* ================================================================== *)
(** * pos-ocr.py *)
(* ================================================================== *)

Module PosOcr.

(** One position [i] of the parallel lists of the OCR engine's result. *)
Record OcrRow := mkOcrRow {
  row_text : option string;  (* [data["text"][i]], [None] when it is [None] *)
  row_conf : option Z;       (* [int(data["conf"][i])], [None] when it raises *)
  row_left : Z;
  row_top : Z;
  row_width : Z;
  row_height : Z
}.

(** One iteration of the loop of [ocr_text_and_boxes]: the list [words]
    after the row. *)
Definition ocr_step (words : list Word) (row : OcrRow) : list Word :=
  let t := match row_text row with
           | Some s => Py.strip s
           | None => EmptyString
           end in
  if negb (Py.truthy t) then words
  else
    let conf_val := default (-1)%Z (row_conf row) in
    words ++ [mkWord t
                (Some (mkBBox (row_left row) (row_top row)
                              (row_width row) (row_height row)))
                None None (Some conf_val) "ocr" None].

(** The [words] that [ocr_text_and_boxes] returns (the page text it returns
    beside them comes from a separate call of the engine). *)
Definition ocr_text_and_boxes (data : list OcrRow) : list Word :=
  foldl ocr_step [] data.

(** What the renderer and the OCR engine give for one page: the size of the
    image and the rows. *)
Record Rendered := mkRendered {
  img_width : Z;
  img_height : Z;
  img_data : list OcrRow
}.

(** The positions document built by the loop of [main]. *)
Definition main (rendered : list Rendered) : Document :=
  (fun pr : nat * Rendered =>
     mkPage (Z.of_nat (fst pr) + 1) (img_width (snd pr)) (img_height (snd pr))
            (ocr_text_and_boxes (img_data (snd pr))))
    <$> Py.enumerate rendered.

(** [zoom = args.dpi / 72.0]. *)
Definition zoom_of_dpi {A} `{PyNum A} (dpi : Z) : A :=
  (num_of_int dpi / num_of_int 72)%num.

End PosOcr.

(* ================================================================== *)
(** * Vocabulary of the properties *)
(* ================================================================== *)

Module Spec.
Import PiiIdentifier StreamlitApp.

(** ** Annotations and sample tokens *)

(** The annotation every token starts with. *)
Definition unflagged : Annotation := mkAnnotation false None None.

(** The annotation a classified token carries. *)
Definition flag (ty : string) : Annotation :=
  mkAnnotation true (Some ty) None.

(** A word as [pos-ocr.py] writes it. *)
Definition ocr_word (t : string) (b : BBox Z) : Word :=
  mkWord t (Some b) None None (Some 95%Z) "ocr" None.

(** A classified word. *)
Definition pii_word (t : string) (b : BBox Z) (a : Annotation) : Word :=
  mkWord t (Some b) None None (Some 95%Z) "ocr" (Some a).

(** The bbox of the geometry scenario. *)
Definition scenario_bbox : BBox Z := mkBBox 100%Z 50%Z 40%Z 10%Z.

(** ** Classification *)

(** What the trace of one chunk of [tag_page] must record: the remote
    call was made on the chunk; the fallback ran iff that call raised or
    returned nothing; a non-empty remote result is what gets written, and
    no fallback ran; when the fallback ran, its result is what gets
    written. *)
Definition chunk_contract `{Patterns} (remote : nat → Reply) (start : nat)
    (chunk_items : list Word) (tr : ChunkTrace) : Prop :=
  ct_start tr = start
  ∧ ct_remote tr = _call_gemini (remote start) chunk_items
  ∧ (is_Some (ct_fallback tr) ↔ ct_remote tr = None ∨ ct_remote tr = Some [])
  ∧ (∀ r rs, ct_remote tr = Some (r :: rs) →
             ct_fallback tr = None ∧ ct_written tr = r :: rs)
  ∧ (∀ fb, ct_fallback tr = Some fb →
           fb = regex_pii_indices chunk_items ∧ ct_written tr = fb).

(** An entry refers to a token of the chunk. *)
Definition in_chunk (chunk_items : list Word) (r : Redaction) : Prop :=
  ∃ k w, r_index r = Z.of_nat k ∧ chunk_items !! k = Some w.

(** The entries of [red] that [_mark] writes at page position [p] when the
    chunk starts at [start]. *)
Definition hits (start p : nat) (red : list Redaction) : list Redaction :=
  List.filter (fun r => (Z.of_nat start + r_index r =? Z.of_nat p)%Z) red.

(** The entries of [out] whose index is not in [seen] and does not occur
    earlier in [out]. *)
Fixpoint first_by_index (seen : gset Z) (out : list Redaction)
  : list Redaction :=
  match out with
  | [] => []
  | r :: rs =>
      if bool_decide (r_index r ∈ seen) then first_by_index seen rs
      else r :: first_by_index ({[ r_index r ]} ∪ seen) rs
  end.

(** ** Categories *)

(** The fixed vocabulary of normalised categories. *)
Definition VOCABULARY : gset string :=
  {[ "name"; "email"; "phone"; "address"; "ip"; "id_number"; "password";
     "other" ]}.

(** ** Geometry *)


(** Two rectangles with equal coordinates, as rationals. *)
Definition Rect_Qeq (r r' : Rect Q) : Prop :=
  (x0 r == x0 r')%Q ∧ (y0 r == y0 r')%Q ∧ (x1 r == x1 r')%Q
  ∧ (y1 r == y1 r')%Q.

(** The point [(x, y)] belongs to [r]. *)
Definition covers (r : Rect Q) (x y : Q) : Prop :=
  (x0 r <= x)%Q ∧ (x <= x1 r)%Q ∧ (y0 r <= y)%Q ∧ (y <= y1 r)%Q.



(** US Letter at 72 points per inch. *)
Definition letter_page : Rect Q := mkRect 0%Q 0%Q 612%Q 792%Q.

(** The number of rectangles planned for each page. *)
Definition plan_sizes {A} (plan : list (Z * list (Rect A * string)))
  : list (Z * nat) :=
  (fun pb => (fst pb, length (snd pb))) <$> plan.

(** ** Report *)

(** The tokens of a page whose annotation has [is_pii] true, with their
    index, by ascending index. *)
Definition page_tokens (pg : Page) : list (Page * nat * Word) :=
  (fun iw => (pg, fst iw, snd iw)) <$>
    List.filter (fun iw => flagged (snd iw)) (Py.enumerate (words pg)).

(** The flagged tokens of a document, page after page. *)
Definition flagged_tokens (doc : Document) : list (Page * nat * Word) :=
  pg ← doc; page_tokens pg.

(** The report item [it] is the one built for the token [t]. *)
Definition item_of (it : Item) (t : Page * nat * Word) : Prop :=
  make_item t.1.1 t.1.2 t.2 = Some it.

(** The number of items of type [ty], and of items on page [pn]. *)
Definition count_type (ty : string) (its : list Item) : nat :=
  length (List.filter (fun it => bool_decide (it_type it = ty)) its).

Definition count_page (pn : Z) (its : list Item) : nat :=
  length (List.filter (fun it => bool_decide (it_page it = pn)) its).

(** What the local variables of the report builder hold after some more
    flagged tokens [ts] have been visited: the items [new] built for them
    have been appended, and every counter has grown by the number of new
    items it counts. *)
Definition extends (acc acc' : Acc) (ts : list (Page * nat * Word)) : Prop :=
  ∃ new,
    acc_items acc' = acc_items acc ++ new
    ∧ Forall2 item_of new ts
    ∧ acc_total acc' = (acc_total acc + length new)%nat
    ∧ counter_sum (acc_by_type acc')
      = (counter_sum (acc_by_type acc) + length new)%nat
    ∧ counter_sum (acc_by_page acc')
      = (counter_sum (acc_by_page acc) + length new)%nat
    ∧ (∀ ty, counter_get ty (acc_by_type acc')
             = (counter_get ty (acc_by_type acc) + count_type ty new)%nat)
    ∧ (∀ pn, counter_get pn (acc_by_page acc')
             = (counter_get pn (acc_by_page acc) + count_page pn new)%nat).

(** The characters of a JSON integer: the digits and the minus sign. *)
Definition is_num_char (c : ascii) : bool :=
  let n := nat_of_ascii c in
  ((48 <=? n)%nat && (n <=? 57)%nat) || (n =? 45)%nat.

Fixpoint all_numeric (s : string) : bool :=
  match s with
  | EmptyString => true
  | String c r => is_num_char c && all_numeric r
  end.

(** ** Vocabulary of the further properties *)

(** What the first loop of the fallback appends for the word at a position. *)
Definition scanned `{Patterns} (ws : list Word) (iw : nat * Word)
  : list Redaction :=
  match regex_type_at ws (fst iw) (snd iw) with
  | Some ty => [mkRedaction (Z.of_nat (fst iw)) ty]
  | None => []
  end.

(** What [tag_page] makes of one chunk taken alone: the chunk's words after
    the classification of that chunk has been written on them. *)
Definition tag_chunk `{Patterns} (remote : nat → Reply)
    (c : nat * list Word) : list Word :=
  _mark (snd c) (ct_written (classify_chunk remote (fst c) (snd c))) 0.

(** A word carries one of the two annotations the tagger writes. *)
Definition annotated (w : Word) : Prop :=
  pii w = Some unflagged ∨ ∃ ty, pii w = Some (flag ty).

(** [pg'] is the page [pg] after tagging: same page number and size, the
    same words in the same order, each one changed in its annotation only
    and carrying one of the tagger's two annotations. *)
Definition tagged_page (pg pg' : Page) : Prop :=
  page pg' = page pg ∧ width pg' = width pg ∧ height pg' = height pg
  ∧ length (words pg') = length (words pg)
  ∧ (∀ a0, set_pii a0 <$> words pg' = set_pii a0 <$> words pg)
  ∧ Forall annotated (words pg').

(** The boxes whose type, normalised, is one of the kept categories. *)
Definition kept_boxes {A} (keep_types : list string)
    (boxes : list (Rect A * string)) : list (Rect A * string) :=
  List.filter
    (fun rt => bool_decide (_normalize_type (Some (snd rt)) ∈ keep_types))
    boxes.

Definition kept_plan {A} (keep_types : list string)
    (plan : list (Z * list (Rect A * string)))
  : list (Z * list (Rect A * string)) :=
  (fun pb => (fst pb, kept_boxes keep_types (snd pb))) <$> plan.

(** The page number of the JSON names a page of the PDF. *)
Definition page_in_doc {A} (doc : list A) (pinfo : Page) : bool :=
  (1 <=? page pinfo)%Z && (page pinfo <=? Z.of_nat (length doc))%Z.

(** The stripped texts of the words that are not blank, in order. *)
Definition texts (ws : list Word) : list string :=
  List.filter Py.truthy ((fun w => _safe_text (text w)) <$> ws).

(** The items of the kept categories. *)
Definition kept_items (keep_types : list string) (its : list Item)
  : list Item :=
  List.filter (fun it => bool_decide (it_type it ∈ keep_types)) its.

(** The number of boxes of a plan. *)
Definition plan_total {A} (plan : list (Z * list (Rect A * string))) : nat :=
  sum_list ((fun pb => length (snd pb)) <$> plan).



(** An [int] that Python converts to a [float] without [OverflowError]. *)
Definition float_range (z : Z) : Prop := (Z.abs z < 2 ^ 1023)%Z.

(** The page number aside, the integers of a document that the redactor
    converts to [float]: the four fields of the bbox of every word. *)
Definition bbox_float_range (b : BBox Z) : Prop :=
  float_range (bx b) ∧ float_range (by_ b)
  ∧ float_range (bw b) ∧ float_range (bh b).

Definition document_float_range (data : Document) : Prop :=
  Forall (fun pg =>
            Forall (fun w => ∀ b, bbox w = Some b → bbox_float_range b)
                   (words pg))
         data.


(** The types the fallback can give. *)
Definition FALLBACK_TYPES : list string := ["email"; "ip"; "phone"; "address"].

End Spec.

(* ================================================================== *)
(** * Properties *)
(* ================================================================== *)

Import PiiIdentifier StreamlitApp Redactor Spec.
Set Warnings "-clear-no-such-hyp".
Local Open Scope string_scope.
Local Open Scope list_scope.

(** ** Strings *)

Lemma lower_char_idem c : Py.lower_char (Py.lower_char c) = Py.lower_char c.
Proof. destruct c as [[] [] [] [] [] [] [] []]; reflexivity. Qed.

Lemma lower_idem s : Py.lower (Py.lower s) = Py.lower s.
Proof.
  induction s as [|c s IH]; simpl; [done|].
  by rewrite lower_char_idem, IH.
Qed.

Lemma truthy_lower s : Py.truthy (Py.lower s) = Py.truthy s.
Proof. by destruct s. Qed.

(** ** Type normalisation *)

Lemma normalize_in_vocabulary t : _normalize_type t ∈ VOCABULARY.
Proof.
  unfold _normalize_type. destruct t as [s|]; [|set_solver].
  destruct (Py.truthy s); simpl; [|set_solver].
  repeat case_bool_decide; set_solver.
Qed.






Lemma normalize_case_insensitive s s' :
  Py.lower s = Py.lower s' →
  _normalize_type (Some s) = _normalize_type (Some s').
Proof.
  intros Heq. unfold _normalize_type.
  rewrite <- (truthy_lower s), <- (truthy_lower s'), Heq. done.
Qed.



(** ** The category filter *)

Lemma filter_word_unflagged keep_types w :
  flagged w = false → filter_word keep_types w = w.
Proof.
  unfold flagged, filter_word. destruct (pii w) as [a|]; [|done].
  by intros ->.
Qed.

Lemma filter_word_kept keep_types w :
  flagged w = true → _normalize_type (pii_type w) ∈ keep_types →
  filter_word keep_types w = w.
Proof.
  unfold flagged, pii_type, filter_word. destruct (pii w) as [a|]; [|done].
  intros -> Hin. simpl. by rewrite bool_decide_eq_true_2.
Qed.

Lemma filter_word_cleared keep_types w :
  flagged w = true → _normalize_type (pii_type w) ∉ keep_types →
  ∃ a, pii w = Some a ∧
       filter_word keep_types w = set_pii (mkAnnotation false None (pii_source a)) w.
Proof.
  unfold flagged, pii_type, filter_word. destruct (pii w) as [a|]; [|done].
  intros -> Hin. exists a. simpl. by rewrite bool_decide_eq_false_2.
Qed.

Lemma filter_word_flagged keep_types w :
  flagged (filter_word keep_types w) = true ↔
  flagged w = true ∧ _normalize_type (pii_type w) ∈ keep_types.
Proof.
  destruct (flagged w) eqn:Hf.
  - destruct (decide (_normalize_type (pii_type w) ∈ keep_types)) as [Hin|Hin].
    + rewrite filter_word_kept by done. naive_solver.
    + destruct (filter_word_cleared keep_types w Hf Hin) as (a & _ & ->).
      unfold flagged; simpl. naive_solver.
  - rewrite filter_word_unflagged, Hf by done. split; [done|by intros [? _]].
Qed.

(** Filtering twice with the same kept set is filtering once. *)
Lemma filter_word_idem keep_types w :
  filter_word keep_types (filter_word keep_types w) = filter_word keep_types w.
Proof.
  destruct (flagged w) eqn:Hf.
  - destruct (decide (_normalize_type (pii_type w) ∈ keep_types)) as [Hin|Hin].
    + by rewrite !(filter_word_kept keep_types w Hf Hin).
    + destruct (filter_word_cleared keep_types w Hf Hin) as (a & _ & ->).
      by apply filter_word_unflagged.
  - by rewrite !(filter_word_unflagged keep_types w Hf).
Qed.

Lemma filter_pii_idem keep_types (data : Document) :
  filter_pii keep_types (filter_pii keep_types data)
  = filter_pii keep_types data.
Proof.
  unfold filter_pii. rewrite <- list_fmap_compose.
  apply list_fmap_ext. intros _ pg _. unfold filter_page; simpl.
  f_equal. rewrite <- list_fmap_compose. apply list_fmap_ext.
  intros _ w _. apply filter_word_idem.
Qed.

Lemma filter_pii_lookup keep_types (data : Document) p :
  filter_pii keep_types data !! p = filter_page keep_types <$> data !! p.
Proof. unfold filter_pii. apply list_lookup_fmap. Qed.

(** C3 — Category filter: after filtering, a token is flagged iff it was
    flagged before and its normalised type is in the kept set; a flagged
    token whose normalised type is not kept has [is_pii] and [type] reset
    to false and null (nothing else of the word changes); a token that
    stays flagged and a token that was not flagged are left as they were.
    Pages and tokens keep their place. *)
Theorem C3_filter_semantics (keep_types : list string) (data : Document)
    (p i : nat) (pg : Page) (w : Word) :
  data !! p = Some pg → words pg !! i = Some w →
  ∃ pg' w',
    filter_pii keep_types data !! p = Some pg'
    ∧ words pg' !! i = Some w'
    ∧ length (filter_pii keep_types data) = length data
    ∧ page pg' = page pg ∧ width pg' = width pg ∧ height pg' = height pg
    ∧ length (words pg') = length (words pg)
    ∧ (flagged w' = true ↔
         flagged w = true ∧ _normalize_type (pii_type w) ∈ keep_types)
    ∧ (flagged w = true → _normalize_type (pii_type w) ∉ keep_types →
         ∃ a, pii w = Some a
              ∧ w' = set_pii (mkAnnotation false None (pii_source a)) w)
    ∧ (flagged w = true → _normalize_type (pii_type w) ∈ keep_types → w' = w)
    ∧ (flagged w = false → w' = w).
Proof.
  intros Hpg Hw.
  exists (filter_page keep_types pg), (filter_word keep_types w).
  split_and!.
  - by rewrite filter_pii_lookup, Hpg.
  - simpl. by rewrite list_lookup_fmap, Hw.
  - unfold filter_pii. apply length_fmap.
  - done.
  - done.
  - done.
  - simpl. apply length_fmap.
  - apply filter_word_flagged.
  - apply filter_word_cleared.
  - apply filter_word_kept.
  - apply filter_word_unflagged.
Qed.

Lemma C3_filter_semantics_witness :
  let john := pii_word "john@x.com" scenario_bbox (flag "email") in
  let main_ := pii_word "Main" scenario_bbox (flag "address") in
  ∃ pg' w',
    filter_pii ["email"] [mkPage 1 2550 3300 [john; main_]] !! 0%nat = Some pg'
    ∧ words pg' !! 1%nat = Some w'
    ∧ flagged w' = false
    ∧ pii w' = Some (mkAnnotation false None None).
Proof.
  intros john main_.
  destruct (C3_filter_semantics ["email"] [mkPage 1 2550 3300 [john; main_]]
              0 1 (mkPage 1 2550 3300 [john; main_]) main_ eq_refl eq_refl)
    as (pg' & w' & Hpg & Hw & _ & _ & _ & _ & _ & Hiff & Hclear & _ & _).
  exists pg', w'. split_and!; [done|done| |].
  - destruct (flagged w') eqn:Hf; [|done].
    destruct (proj1 Hiff eq_refl) as [_ Hin]. vm_compute in Hin.
    apply list_elem_of_singleton in Hin. discriminate.
  - destruct Hclear as (a & Ha & ->); [done| |].
    + vm_compute. intros Hin. apply list_elem_of_singleton in Hin. discriminate.
    + injection Ha as <-. reflexivity.
Defined.

(** ** Chunking and write-back *)

Lemma slice_step {A} (l : list A) i n :
  Py.slice l i (i + n) = take n (drop i l).
Proof. unfold Py.slice. f_equal. lia. Qed.

(** With enough fuel, the slices taken at the offsets of the range are the
    list from the first offset on. *)
Lemma range_from_concat {A} (l : list A) step fuel i :
  (0 < step)%nat → (length l ≤ i + fuel)%nat →
  concat ((fun j => Py.slice l j (j + step))
            <$> Py.range_from fuel i (length l) step) = drop i l.
Proof.
  intros Hstep. revert i. induction fuel as [|fuel IH]; intros i Hfuel; simpl.
  - symmetry. apply drop_ge. lia.
  - destruct (Nat.ltb_spec i (length l)) as [Hlt|Hge]; simpl.
    + rewrite IH by lia. rewrite slice_step.
      rewrite <- (drop_drop l step i). apply take_drop.
    + symmetry. apply drop_ge. lia.
Qed.

Lemma range_from_lookup fuel i stop step j s :
  Py.range_from fuel i stop step !! j = Some s →
  s = (i + j * step)%nat ∧ (s < stop)%nat.
Proof.
  revert i j. induction fuel as [|fuel IH]; intros i j; simpl; [done|].
  destruct (Nat.ltb_spec i stop) as [Hlt|Hge]; [|done].
  destruct j as [|j]; simpl.
  - intros [= <-]. split; [lia|done].
  - intros Hj. apply IH in Hj as [-> ?]. split; [lia|done].
Qed.

Lemma chunk_positive {A} (l : list A) (N : Z) :
  (0 < N)%Z →
  _chunk l N =
    Some ((fun i => (i, take (Z.to_nat N) (drop i l)))
            <$> Py.range_from (length l) 0 (length l) (Z.to_nat N)).
Proof.
  intros HN. unfold _chunk, Py.range_step.
  destruct (Z.eqb_spec N 0) as [|_]; [lia|].
  destruct (Z.ltb_spec N 0) as [|_]; [lia|].
  simpl. f_equal. apply list_fmap_ext. intros _ i _.
  by rewrite slice_step.
Qed.

Lemma mark_one_in_range start (cur : list Word) (r : Redaction) (k : nat) :
  r_index r = Z.of_nat k → (start + k < length cur)%nat →
  mark_one start cur r = alter (set_pii (flag (r_type r))) (start + k)%nat cur.
Proof.
  intros Hk Hlt. unfold mark_one. rewrite Hk.
  replace (Z.of_nat start + Z.of_nat k)%Z with (Z.of_nat (start + k)) by lia.
  rewrite Nat2Z.id.
  destruct (Z.leb_spec 0 (Z.of_nat (start + k))) as [_|]; [|lia].
  destruct (Z.ltb_spec (Z.of_nat (start + k)) (Z.of_nat (length cur))) as [_|];
    [done|lia].
Qed.

Lemma mark_one_length start cur r : length (mark_one start cur r) = length cur.
Proof.
  unfold mark_one. destruct (_ && _); [apply length_alter|done].
Qed.

Lemma mark_length cur red start : length (_mark cur red start) = length cur.
Proof.
  unfold _mark. revert cur. induction red as [|r red IH]; intros cur; simpl;
    [done|].
  by rewrite IH, mark_one_length.
Qed.

(** Marking touches nothing but the [pii] key. *)
Lemma mark_one_only_pii a0 start cur r :
  set_pii a0 <$> mark_one start cur r = set_pii a0 <$> cur.
Proof.
  unfold mark_one. destruct (_ && _); [|done].
  apply list_eq. intros i. rewrite !list_lookup_fmap.
  destruct (decide (i = Z.to_nat (Z.of_nat start + r_index r))) as [->|Hne].
  - rewrite list_lookup_alter_eq. by destruct (cur !! _).
  - by rewrite list_lookup_alter_ne.
Qed.

Lemma mark_only_pii a0 cur red start :
  set_pii a0 <$> _mark cur red start = set_pii a0 <$> cur.
Proof.
  unfold _mark. revert cur. induction red as [|r red IH]; intros cur; simpl;
    [done|].
  by rewrite IH, mark_one_only_pii.
Qed.

(** C1 — Index stability of chunked classification: for a chunk size
    [N > 0], [_chunk] cuts the page into consecutive slices of size [N]
    whose concatenation is the page; the [j]-th chunk starts at offset
    [j * N]; and an entry with chunk-local index [k] that refers to the token
    [w] of the chunk is written by [_mark] at the page position
    [start + k], which holds that same token [w], and nowhere else. *)
Theorem C1_index_stability (words : list Word) (N : Z) :
  (0 < N)%Z →
  ∃ chunks,
    _chunk words N = Some chunks
    ∧ concat (snd <$> chunks) = words
    ∧ ∀ j start items,
        chunks !! j = Some (start, items) →
        start = (j * Z.to_nat N)%nat
        ∧ items = take (Z.to_nat N) (drop start words)
        ∧ ∀ (r : Redaction) (k : nat) (w : Word),
            r_index r = Z.of_nat k → items !! k = Some w →
            words !! (start + k)%nat = Some w
            ∧ _mark words [r] start
              = <[(start + k)%nat := set_pii (flag (r_type r)) w]> words
            ∧ ∀ cur, length cur = length words →
                _mark cur [r] start
                = alter (set_pii (flag (r_type r))) (start + k)%nat cur.
Proof.
  intros HN. eexists. split; [by apply chunk_positive|]. split.
  - rewrite <- list_fmap_compose.
    etrans;
      [|exact (range_from_concat words (Z.to_nat N) (length words) 0
                 ltac:(lia) ltac:(lia))].
    f_equal. apply list_fmap_ext. intros _ i _. simpl. by rewrite slice_step.
  - intros j start items Hj.
    rewrite list_lookup_fmap in Hj.
    destruct (Py.range_from _ _ _ _ !! j) as [s|] eqn:Hs; [|done].
    simpl in Hj. injection Hj as <- <-.
    apply range_from_lookup in Hs as [Hs Hlt]. simpl in Hs.
    split; [done|]. split; [done|].
    intros r k w Hk Hw.
    assert (Hglobal : words !! (s + k)%nat = Some w).
    { apply lookup_take_Some in Hw as [Hw _]. by rewrite lookup_drop in Hw. }
    assert (Hin : (s + k < length words)%nat) by (by eapply lookup_lt_Some).
    split; [done|]. split.
    + unfold _mark; simpl. rewrite (mark_one_in_range _ _ _ k) by done.
      apply list_eq. intros i.
      destruct (decide (i = (s + k)%nat)) as [->|Hne].
      * rewrite list_lookup_alter_eq, list_lookup_insert_eq by done.
        by rewrite Hglobal.
      * by rewrite list_lookup_alter_ne, list_lookup_insert_ne.
    + intros cur Hlen. unfold _mark; simpl.
      apply mark_one_in_range; [done|lia].
Qed.

Lemma C1_index_stability_witness :
  let ws := [ocr_word "a" scenario_bbox; ocr_word "b" scenario_bbox;
             ocr_word "c" scenario_bbox; ocr_word "d" scenario_bbox;
             ocr_word "e" scenario_bbox] in
  ∃ chunks,
    _chunk ws 2 = Some chunks
    ∧ fst <$> chunks = [0; 2; 4]%nat
    ∧ _mark ws [mkRedaction 1 "name"] 2
      = <[3%nat := set_pii (flag "name") (ocr_word "d" scenario_bbox)]> ws.
Proof.
  intros ws.
  destruct (C1_index_stability ws 2 ltac:(lia)) as (chunks & Hc & _ & Hall).
  exists chunks. split; [done|]. split.
  - vm_compute in Hc. injection Hc as <-. reflexivity.
  - destruct (Hall 1%nat 2%nat [ocr_word "c" scenario_bbox;
                                ocr_word "d" scenario_bbox]) as (_ & _ & Hmark).
    + vm_compute in Hc. injection Hc as <-. reflexivity.
    + destruct (Hmark (mkRedaction 1 "name") 1%nat
                  (ocr_word "d" scenario_bbox) eq_refl eq_refl)
        as (_ & Heq & _).
      exact Heq.
Defined.

(** ** The page tagger *)

Section TagPageProperties.
Context `{Patterns}.
Variable remote : nat → Reply.

Lemma classify_chunk_contract start chunk_items :
  chunk_contract remote start chunk_items
                 (classify_chunk remote start chunk_items).
Proof.
  unfold chunk_contract, classify_chunk.
  destruct (_call_gemini (remote start) chunk_items) as [[|r rs]|]; simpl.
  - split_and!; [done|done| |done|naive_solver].
    split; [by right|by eexists].
  - split_and!; [done|done| |naive_solver|done].
    split; [by intros [? ?]|by intros [|]].
  - split_and!; [done|done| |done|naive_solver].
    split; [by left|by eexists].
Qed.

(** The loop of [tag_page] from any intermediate state. *)
Lemma tag_loop (a0 : Annotation) (tagged0 : list Word)
    (chunks : list (nat * list Word)) :
  Forall (fun c => snd c = Py.slice tagged0 (fst c) (fst c + length (snd c)))
         chunks →
  ∀ cur log0,
    set_pii a0 <$> cur = set_pii a0 <$> tagged0 →
    ∃ new,
      foldl (tag_step remote) (cur, log0) chunks
      = (foldl (fun t tr => _mark t (ct_written tr) (ct_start tr)) cur new,
         log0 ++ new)
      ∧ Forall2 (fun tr c =>
                   ∃ chunk_items,
                     set_pii a0 <$> chunk_items = set_pii a0 <$> snd c
                     ∧ chunk_contract remote (fst c) chunk_items tr)
                new chunks.
Proof.
  induction 1 as [|[start items] chunks Hc _ IH]; intros cur log0 Hcur.
  - exists []. simpl. by rewrite app_nil_r.
  - simpl in Hc. simpl.
    set (chunk_items := Py.slice cur start (start + length items)).
    set (tr := classify_chunk remote start chunk_items).
    destruct (IH (_mark cur (ct_written tr) start) (log0 ++ [tr]))
      as (new & Hfold & Hall).
    { by rewrite mark_only_pii. }
    exists (tr :: new). split.
    + rewrite Hfold. simpl. rewrite <- app_assoc.
      assert (Hst : ct_start tr = start) by apply classify_chunk_contract.
      by rewrite Hst.
    + constructor; [|done]. exists chunk_items. split.
      * subst chunk_items. rewrite Hc at 2. unfold Py.slice.
        simpl. by rewrite !fmap_take, !fmap_drop, Hcur.
      * apply classify_chunk_contract.
Qed.

Lemma chunk_slices {A} (l : list A) size chunks :
  _chunk l size = Some chunks →
  Forall (fun c => snd c = Py.slice l (fst c) (fst c + length (snd c))) chunks.
Proof.
  unfold _chunk. destruct (Py.range_step _ _) as [starts|]; [|done].
  intros [= <-]. apply Forall_fmap, Forall_forall. intros i _. simpl.
  rewrite !slice_step. set (d := drop i l). set (n := Z.to_nat size).
  destruct (Nat.le_gt_cases n (length d)) as [Hle|Hgt].
  - by rewrite length_take, Nat.min_l.
  - by rewrite (take_ge d n), take_ge by lia.
Qed.

(** C4 — Fallback exclusivity: [tag_page] returns for every non-zero
    chunk size, and in a run every chunk of the page has one trace entry,
    in order, for which: the remote call was made on the chunk's words;
    the regex fallback ran iff that call raised or returned an empty
    list; a non-empty remote list is exactly what was handed to [_mark]
    and the fallback did not run; the fallback's result, when it ran, is
    what was handed to [_mark].  The tagged page is the result of those
    writes and no others. *)
Theorem C4_fallback_exclusivity (MAX_WORDS_PER_CHUNK : Z)
    (words : list Word) :
  let tagged0 := set_pii unflagged <$> words in
  (MAX_WORDS_PER_CHUNK ≠ 0%Z →
     is_Some (tag_page_traced remote MAX_WORDS_PER_CHUNK words))
  ∧ ∀ tagged log,
      tag_page_traced remote MAX_WORDS_PER_CHUNK words = Some (tagged, log) →
      ∃ chunks,
        _chunk tagged0 MAX_WORDS_PER_CHUNK = Some chunks
        ∧ tagged
          = foldl (fun t tr => _mark t (ct_written tr) (ct_start tr))
                  tagged0 log
        ∧ Forall2 (fun tr c =>
                     ∃ chunk_items,
                       set_pii unflagged <$> chunk_items
                       = set_pii unflagged <$> snd c
                       ∧ chunk_contract remote (fst c) chunk_items tr)
                  log chunks.
Proof.
  intros tagged0. split.
  - intros Hne. unfold tag_page_traced, _chunk, Py.range_step.
    destruct (Z.eqb_spec MAX_WORDS_PER_CHUNK 0) as [|_]; [done|].
    destruct (_ <? _)%Z; by eexists.
  - intros tagged log Hrun. unfold tag_page_traced in Hrun.
    change (set_pii _ <$> words) with tagged0 in Hrun.
    destruct (_chunk tagged0 MAX_WORDS_PER_CHUNK) as [chunks|] eqn:Hc;
      [|done].
    simpl in Hrun. exists chunks. split; [done|].
    destruct (tag_loop unflagged tagged0 chunks (chunk_slices _ _ _ Hc)
                tagged0 [] eq_refl) as (new & Hfold & Hall).
    rewrite Hfold in Hrun. simpl in Hrun. injection Hrun as <- <-.
    done.
Qed.

(** The tagger never drops, adds or reorders tokens, and changes nothing
    of a token but its annotation. *)
Lemma tag_page_keeps_tokens (MAX_WORDS_PER_CHUNK : Z) (words tagged : list Word)
    (a0 : Annotation) :
  tag_page remote MAX_WORDS_PER_CHUNK words = Some tagged →
  length tagged = length words
  ∧ set_pii a0 <$> tagged = set_pii a0 <$> words.
Proof.
  unfold tag_page, tag_page_traced. intros Hrun.
  set (tagged0 := set_pii unflagged <$> words).
  change (set_pii _ <$> words) with tagged0 in Hrun.
  destruct (_chunk tagged0 MAX_WORDS_PER_CHUNK) as [chunks|] eqn:Hc; [|done].
  destruct (tag_loop unflagged tagged0 chunks (chunk_slices _ _ _ Hc)
              tagged0 [] eq_refl) as (log & Hfold & _).
  simpl in Hrun. rewrite Hfold in Hrun. simpl in Hrun. injection Hrun as <-.
  assert (Hkeep : ∀ cur, set_pii a0 <$>
            foldl (fun t tr => _mark t (ct_written tr) (ct_start tr)) cur log
            = set_pii a0 <$> cur).
  { clear. induction log as [|tr log IH]; intros cur; simpl; [done|].
    by rewrite IH, mark_only_pii. }
  assert (Heq : set_pii a0 <$>
            foldl (fun t tr => _mark t (ct_written tr) (ct_start tr))
                  tagged0 log
            = set_pii a0 <$> words).
  { rewrite Hkeep. unfold tagged0. rewrite <- list_fmap_compose.
    by apply list_fmap_ext. }
  split; [|done].
  apply (f_equal length) in Heq. by rewrite !length_fmap in Heq.
Qed.
End TagPageProperties.

Lemma C4_fallback_exclusivity_witness :
  let engine : Patterns :=
    {| EMAIL_RE := Py.contains "@";
       PHONE_RE := fun _ => false;
       IPV4_RE := fun _ => false |} in
  let remote (start : nat) : Reply :=
    match start with
    | O => ReplyError
    | _ => ReplyRedactions [mkRawEntry (Some 0%Z) (Some "name")]
    end in
  let ws := [ocr_word "john@x.com" scenario_bbox;
             ocr_word "lives" scenario_bbox;
             ocr_word "Smith" scenario_bbox] in
  ∃ tagged log chunks,
    tag_page_traced remote 2 ws = Some (tagged, log)
    ∧ _chunk (set_pii unflagged <$> ws) 2 = Some chunks
    ∧ Forall2 (fun tr c =>
                 ∃ chunk_items,
                   set_pii unflagged <$> chunk_items
                   = set_pii unflagged <$> snd c
                   ∧ chunk_contract remote (fst c) chunk_items tr)
              log chunks.
Proof.
  intros engine remote ws.
  destruct (tag_page_traced remote 2 ws) as [[tagged log]|] eqn:Hrun;
    [|vm_compute in Hrun; discriminate].
  destruct (C4_fallback_exclusivity remote 2 ws) as [_ Hall].
  destruct (Hall tagged log Hrun) as (chunks & Hc & _ & Htrace).
  by exists tagged, log, chunks.
Defined.

(** ** Pixel-to-point geometry *)

Lemma scale_of_dpi_nonzero {A} `{PyNum A} (d : Z) :
  d ≠ 0%Z → scale_of_dpi d = Some (num_of_int 72 / num_of_int d)%num.
Proof.
  intros Hd. unfold scale_of_dpi. by destruct (Z.eqb_spec d 0).
Qed.

(** In exact arithmetic the candidate rectangle has the corners
    [(x - m, y - m)] and [(x + w + m, y + h + m)], scaled. *)
Lemma candidate_rect_exact (b : BBox Z) (m s : Q) :
  Rect_Qeq (candidate_rect b m s)
           (mkRect ((inject_Z (bx b) - m) * s) ((inject_Z (by_ b) - m) * s)
                   ((inject_Z (bx b) + inject_Z (bw b) + m) * s)
                   ((inject_Z (by_ b) + inject_Z (bh b) + m) * s))%Q.
Proof.
  unfold Rect_Qeq, candidate_rect, px_to_pdf_rect, expand_bbox; simpl.
  split_and!; ring.
Qed.




(** ** Clipping *)

Lemma exact_ltb (a b : Q) : (a <? b)%num = true ↔ (a < b)%Q.
Proof.
  simpl. rewrite negb_true_iff, <- not_true_iff_false, Qle_bool_iff.
  split; [apply Qnot_le_lt|apply Qlt_not_le].
Qed.

Lemma exact_ltb_false (a b : Q) : (a <? b)%num = false ↔ (b <= a)%Q.
Proof.
  simpl. rewrite negb_false_iff. apply Qle_bool_iff.
Qed.

(** Case analysis on a comparison of rationals, leaving the order fact. *)
Ltac case_ltb a b :=
  let Hc := fresh "Hcmp" in
  destruct (a <? b)%num eqn:Hc;
  [apply exact_ltb in Hc|apply exact_ltb_false in Hc].

(** The modelled [intersect] is the intersection: a point belongs to the
    result iff it belongs to both rectangles. *)
Lemma Rect_intersect_covers (r p : Rect Q) (x y : Q) :
  covers (Rect_intersect r p) x y ↔ covers r x y ∧ covers p x y.
Proof.
  unfold covers, Rect_intersect; cbn [x0 y0 x1 y1].
  case_ltb (x0 r) (x0 p); case_ltb (y0 r) (y0 p);
    case_ltb (x1 p) (x1 r); case_ltb (y1 p) (y1 r);
    (split; [intros (? & ? & ? & ?)|intros [(? & ? & ? & ?) (? & ? & ? & ?)]]);
    split_and!; lra.
Qed.

Lemma has_area_exact (r : Rect Q) :
  has_area r = true ↔ (0 < Rect_width r)%Q ∧ (0 < Rect_height r)%Q.
Proof.
  unfold has_area. rewrite andb_true_iff, !exact_ltb. done.
Qed.




(** What one iteration of the loop of [main] does to [boxes]. *)
Lemma box_step_cases {A} `{PyNum A} wanted (margin scale : A) page_rect
    boxes w :
  box_step wanted margin scale page_rect boxes w = boxes
  ∨ ∃ b, flagged w = true ∧ wtype_of w ∈ wanted ∧ bbox w = Some b
         ∧ has_area (clamp_rect (candidate_rect b margin scale) page_rect) = true
         ∧ box_step wanted margin scale page_rect boxes w
           = boxes ++ [(clamp_rect (candidate_rect b margin scale) page_rect,
                        wtype_of w)].
Proof.
  unfold box_step. destruct (flagged w); simpl; [|by left].
  case_bool_decide as Hin; simpl; [|by left].
  destruct (bbox w) as [b|]; [|by left].
  fold (candidate_rect b margin scale).
  destruct (has_area _) eqn:Harea; [|by left].
  right. by exists b.
Qed.


(** ** Default category selection *)

(** The default selection covers the seven types of [ALL_TYPES]: a flagged
    token of one of these types whose clipped box has an area yields its
    rectangle. *)
Lemma default_selection_covers_all_types {A} `{PyNum A} (ty t : string)
    (b : BBox Z) (margin scale : A) (page_rect : Rect A) :
  ty ∈ ALL_TYPES →
  has_area (clamp_rect (candidate_rect b margin scale) page_rect) = true →
  page_boxes (parse_types "all") margin scale page_rect
             [pii_word t b (flag ty)]
  = [(clamp_rect (candidate_rect b margin scale) page_rect, ty)].
Proof.
  intros Hty Harea. unfold page_boxes, box_step; simpl.
  fold (candidate_rect b margin scale). rewrite Harea.
  unfold ALL_TYPES in Hty. rewrite !elem_of_union, !elem_of_singleton in Hty.
  repeat destruct Hty as [Hty|Hty]; subst ty; reflexivity.
Qed.

(** C7 — Default category coverage, at the inputs where the code departs
    from it: "password" is a member of the vocabulary and is its own
    normalised type, the category filter keeps a password token when
    "password" is selected, yet the default selection of the redaction
    stage does not contain "password" and a flagged password token yields no
    rectangle, whatever its box, the margin, the scale and the page.
    Likewise a flagged token tagged "SSN" normalises to [id_number], which
    the default selection contains, and yields no rectangle, because the
    redaction stage looks up the lower-cased raw tag. *)
Theorem C7_password_token_not_redacted {A} `{PyNum A} (b : BBox Z)
    (margin scale : A) (page_rect : Rect A) :
  let w := pii_word "hunter2" b (flag "password") in
  let w' := pii_word "078-05-1120" b (flag "SSN") in
  "password" ∈ VOCABULARY
  ∧ _normalize_type (pii_type w) = "password"
  ∧ filter_word ["password"] w = w
  ∧ ¬ ("password" ∈ parse_types "all")
  ∧ page_boxes (parse_types "all") margin scale page_rect [w] = []
  ∧ _normalize_type (pii_type w') = "id_number"
  ∧ "id_number" ∈ parse_types "all"
  ∧ page_boxes (parse_types "all") margin scale page_rect [w'] = [].
Proof.
  split_and!.
  - set_solver.
  - reflexivity.
  - reflexivity.
  - vm_compute. discriminate.
  - reflexivity.
  - reflexivity.
  - vm_compute. reflexivity.
  - reflexivity.
Qed.

(** ** Duplicate indices in a classification result *)

Lemma set_pii_set_pii a a' w : set_pii a (set_pii a' w) = set_pii a w.
Proof. done. Qed.

Lemma mark_snoc cur red r start :
  _mark cur (red ++ [r]) start = mark_one start (_mark cur red start) r.
Proof. unfold _mark. by rewrite foldl_app. Qed.

Lemma hits_snoc start p red r :
  hits start p (red ++ [r])
  = hits start p red
    ++ (if (Z.of_nat start + r_index r =? Z.of_nat p)%Z then [r] else []).
Proof. unfold hits. by rewrite List.filter_app. Qed.

(** [_mark] lets the last entry for a position decide its annotation. *)
Lemma mark_last_wins (cur : list Word) (red : list Redaction)
    (start p : nat) :
  _mark cur red start !! p
  = match last (hits start p red) with
    | Some r => set_pii (flag (r_type r)) <$> cur !! p
    | None => cur !! p
    end.
Proof.
  induction red as [|r red IH] using rev_ind; [done|].
  rewrite mark_snoc, hits_snoc. unfold mark_one.
  rewrite mark_length.
  destruct (Z.eqb_spec (Z.of_nat start + r_index r) (Z.of_nat p)) as [Heq|Hne].
  - rewrite last_snoc, Heq, Nat2Z.id.
    destruct (Z.leb_spec 0 (Z.of_nat p)) as [_|]; [|lia].
    destruct (Z.ltb_spec (Z.of_nat p) (Z.of_nat (length cur))) as [Hlt|Hge];
      simpl.
    + rewrite list_lookup_alter_eq, IH.
      destruct (last _); [|done].
      rewrite <- option_fmap_compose. by destruct (cur !! p).
    + rewrite IH. rewrite (lookup_ge_None_2 cur p) by lia.
      by destruct (last _).
  - rewrite app_nil_r, <- IH.
    destruct (_ && _) eqn:Hrange; [|done].
    apply list_lookup_alter_ne. lia.
Qed.

Lemma dedup_fold seen acc out :
  snd (foldl dedup_step (seen, acc) out) = acc ++ first_by_index seen out.
Proof.
  revert seen acc. induction out as [|r out IH]; intros seen acc; simpl.
  - by rewrite app_nil_r.
  - case_bool_decide; rewrite IH; [done|].
    by rewrite <- app_assoc.
Qed.

Lemma distinct_by_index_first out :
  distinct_by_index out = first_by_index ∅ out.
Proof. unfold distinct_by_index. by rewrite dedup_fold. Qed.

Lemma first_by_index_fresh seen out r :
  r ∈ first_by_index seen out → ¬ (r_index r ∈ seen) ∧ r ∈ out.
Proof.
  revert seen. induction out as [|r' out IH]; intros seen; simpl.
  - by intros ?%elem_of_nil.
  - case_bool_decide as Hseen.
    + intros [? ?]%IH. split; [done|by right].
    + intros [->|Hin]%elem_of_cons; [split; [done|by left]|].
      apply IH in Hin as [Hfresh ?]. split; [set_solver|by right].
Qed.

(** The de-duplicated list has no index twice. *)
Lemma first_by_index_NoDup seen out :
  NoDup (r_index <$> first_by_index seen out).
Proof.
  revert seen. induction out as [|r out IH]; intros seen; simpl.
  - constructor.
  - case_bool_decide as Hseen; [apply IH|].
    rewrite fmap_cons. constructor; [|apply IH].
    intros (r' & Heq & Hin)%list_elem_of_fmap.
    apply first_by_index_fresh in Hin as [Hfresh _]. set_solver.
Qed.

(** The entry kept for an index is the first one with that index. *)
Lemma first_by_index_head seen out i :
  i ∉ seen →
  head (List.filter (fun r => (r_index r =? i)%Z) (first_by_index seen out))
  = head (List.filter (fun r => (r_index r =? i)%Z) out).
Proof.
  revert seen. induction out as [|r out IH]; intros seen Hi; simpl; [done|].
  case_bool_decide as Hseen.
  - destruct (Z.eqb_spec (r_index r) i) as [Heq|_]; [|by apply IH].
    by rewrite Heq in Hseen.
  - simpl. destruct (Z.eqb_spec (r_index r) i) as [Heq|Hne]; [done|].
    apply IH. set_solver.
Qed.

Lemma filter_none {A} (f : A → bool) (l : list A) :
  (∀ x, x ∈ l → f x = false) → List.filter f l = [].
Proof.
  induction l as [|x l IH]; intros Hall; simpl; [done|].
  rewrite (Hall x) by (by left). apply IH. intros y Hy. apply Hall. by right.
Qed.

(** In a list without repeated indices at most one entry hits a position. *)
Lemma hits_NoDup start p red :
  NoDup (r_index <$> red) →
  last (hits start p red)
  = head (List.filter (fun r => (r_index r =? Z.of_nat p - Z.of_nat start)%Z) red).
Proof.
  unfold hits. induction red as [|r red IH]; simpl; [done|].
  intros [Hnotin Hnd]%NoDup_cons.
  destruct (Z.eqb_spec (Z.of_nat start + r_index r) (Z.of_nat p)) as [Heq|Hne].
  - destruct (Z.eqb_spec (r_index r) (Z.of_nat p - Z.of_nat start)) as [_|];
      [|lia].
    simpl.
    assert (Hnone : List.filter
              (fun r0 => (Z.of_nat start + r_index r0 =? Z.of_nat p)%Z) red = []).
    { apply filter_none. intros r' Hr'.
      destruct (Z.eqb_spec (Z.of_nat start + r_index r') (Z.of_nat p)); [|done].
      destruct Hnotin. apply list_elem_of_fmap. exists r'.
      split; [lia|done]. }
    by rewrite Hnone.
  - destruct (Z.eqb_spec (r_index r) (Z.of_nat p - Z.of_nat start)) as [|_];
      [lia|].
    by apply IH.
Qed.

(** The fallback writes, for each index, the type of the first entry its
    scan produced for that index. *)
Lemma fallback_first_wins (cur : list Word) (out : list Redaction)
    (start k : nat) :
  _mark cur (distinct_by_index out) start !! (start + k)%nat
  = match head (List.filter (fun r => (r_index r =? Z.of_nat k)%Z) out) with
    | Some r => set_pii (flag (r_type r)) <$> cur !! (start + k)%nat
    | None => cur !! (start + k)%nat
    end.
Proof.
  rewrite mark_last_wins, distinct_by_index_first.
  rewrite hits_NoDup by apply first_by_index_NoDup.
  replace (Z.of_nat (start + k) - Z.of_nat start)%Z with (Z.of_nat k) by lia.
  by rewrite first_by_index_head by set_solver.
Qed.

(** ** Indices handed to the write-back *)

Lemma enumerate_from_elem {A} (l : list A) (n i : nat) (x : A) :
  (i, x) ∈ zip (seq n (length l)) l → (n ≤ i)%nat ∧ l !! (i - n)%nat = Some x.
Proof.
  revert n. induction l as [|y l IH]; intros n; simpl.
  - by intros ?%elem_of_nil.
  - intros [[= -> ->]|Hin]%elem_of_cons.
    + split; [lia|]. by rewrite Nat.sub_diag.
    + apply IH in Hin as [Hle Hl]. split; [lia|].
      replace (i - n)%nat with (S (i - S n)) by lia. done.
Qed.

Lemma enumerate_elem {A} (l : list A) (i : nat) (x : A) :
  (i, x) ∈ Py.enumerate l → l !! i = Some x.
Proof.
  intros Hin. apply enumerate_from_elem in Hin as [_ Hl].
  by rewrite Nat.sub_0_r in Hl.
Qed.

Lemma call_gemini_in_chunk reply chunk_items red r :
  _call_gemini reply chunk_items = Some red → r ∈ red → in_chunk chunk_items r.
Proof.
  destruct reply as [| | |raw]; simpl; intros [= <-];
    try (by intros ?%elem_of_nil).
  intros (e & _ & He)%list_elem_of_omap.
  destruct (raw_index e) as [idx|]; [|done].
  destruct (Z.leb_spec 0 idx) as [Hge|]; [|done].
  destruct (Z.ltb_spec idx (Z.of_nat (length chunk_items))) as [Hlt|]; [|done].
  simpl in He. injection He as <-. simpl.
  destruct (lookup_lt_is_Some_2 chunk_items (Z.to_nat idx)) as [w Hw]; [lia|].
  exists (Z.to_nat idx), w. split; [simpl; lia|done].
Qed.

Lemma regex_scan_in_chunk `{Patterns} chunk_items r :
  r ∈ regex_scan chunk_items → in_chunk chunk_items r.
Proof.
  unfold regex_scan.
  cut (∀ (l : list (nat * Word)) out,
         (∀ i w, (i, w) ∈ l → chunk_items !! i = Some w) →
         (∀ r', r' ∈ out → in_chunk chunk_items r') →
         r ∈ foldl (fun out '(i, w) =>
                      match regex_type_at chunk_items i w with
                      | Some ty => out ++ [mkRedaction (Z.of_nat i) ty]
                      | None => out
                      end) out l →
         in_chunk chunk_items r).
  { intros Hcut. apply Hcut.
    - intros i w. apply enumerate_elem.
    - by intros r' ?%elem_of_nil. }
  induction l as [|[i w] l IH]; intros out Hl Hout; simpl; [by apply Hout|].
  apply IH.
  - intros i' w' Hin. apply Hl. by right.
  - intros r'. destruct (regex_type_at chunk_items i w) as [ty|]; [|by apply Hout].
    intros [Hin|Hin]%elem_of_app; [by apply Hout|].
    apply list_elem_of_singleton in Hin as ->.
    exists i, w. split; [done|]. apply Hl. by left.
Qed.

Lemma regex_pii_indices_in_chunk `{Patterns} chunk_items r :
  r ∈ regex_pii_indices chunk_items → in_chunk chunk_items r.
Proof.
  unfold regex_pii_indices. rewrite distinct_by_index_first.
  intros [_ Hin]%first_by_index_fresh. by apply regex_scan_in_chunk.
Qed.

(** Whatever [tag_page] hands to [_mark] for a chunk refers to tokens of
    that chunk. *)
Lemma written_in_chunk `{Patterns} (remote : nat → Reply) start chunk_items r :
  r ∈ ct_written (classify_chunk remote start chunk_items) →
  in_chunk chunk_items r.
Proof.
  unfold classify_chunk.
  destruct (_call_gemini (remote start) chunk_items) as [[|r0 rs]|] eqn:Hcall;
    simpl.
  - apply regex_pii_indices_in_chunk.
  - by apply (call_gemini_in_chunk _ _ _ _ Hcall).
  - apply regex_pii_indices_in_chunk.
Qed.

(** C6 — First-classification-wins, at the input where the code departs
    from it: the remote service answers a one-word chunk with two entries
    for index 0, "name" first and "email" second; both pass
    [_call_gemini], the fallback does not run, and the annotation written
    on the word carries "email", the type of the last entry. *)
Theorem C6_remote_duplicates_last_wins `{Patterns} :
  let remote := fun _ : nat =>
    ReplyRedactions [mkRawEntry (Some 0%Z) (Some "name");
                     mkRawEntry (Some 0%Z) (Some "email")] in
  let ws := [ocr_word "John" scenario_bbox] in
  _call_gemini (remote 0%nat) (set_pii unflagged <$> ws)
  = Some [mkRedaction 0 "name"; mkRedaction 0 "email"]
  ∧ tag_page remote 600 ws
    = Some [pii_word "John" scenario_bbox (flag "email")]
  ∧ tag_page remote 600 ws
    ≠ Some [pii_word "John" scenario_bbox (flag "name")].
Proof.
  split_and!; [reflexivity|reflexivity|discriminate].
Qed.

(** ** The redaction report *)

Lemma counter_sum_incr {K} `{EqDecision K} (k : K) (c : Counter K) :
  counter_sum (counter_incr k c) = S (counter_sum c).
Proof.
  unfold counter_sum. induction c as [|[k' n] c IH]; simpl; [done|].
  destruct (decide (k = k')); simpl; [done|].
  change (list_fmap _ _ snd ?l) with (snd <$> l). rewrite IH. lia.
Qed.

Lemma collect_context_some ws i w :
  ws !! i = Some w → is_Some (_collect_context ws i 3 3).
Proof. intros Hw. unfold _collect_context. rewrite Hw. by eexists. Qed.

Lemma make_item_some pg i w :
  words pg !! i = Some w → is_Some (make_item pg i w).
Proof.
  intros Hw. unfold make_item.
  destruct (collect_context_some _ _ _ Hw) as [ctx ->]. by eexists.
Qed.

Lemma item_of_position it pg i w :
  item_of it (pg, i, w) → it_page it = page pg ∧ it_index it = i.
Proof.
  unfold item_of, make_item; simpl.
  destruct (_collect_context _ _ _ _); [|done]. simpl. by intros [= <-].
Qed.

Lemma counter_get_incr {K} `{EqDecision K} (k k' : K) (c : Counter K) :
  counter_get k' (counter_incr k c)
  = (counter_get k' c + if decide (k' = k) then 1 else 0)%nat.
Proof.
  induction c as [|[k0 n] c IH]; simpl.
  - by destruct (decide (k' = k)).
  - destruct (decide (k = k0)) as [->|Hne]; simpl.
    + destruct (decide (k' = k0)); lia.
    + rewrite IH. destruct (decide (k' = k0)) as [->|]; [|done].
      destruct (decide (k0 = k)); [congruence|lia].
Qed.

Lemma count_type_app ty l l' :
  count_type ty (l ++ l') = (count_type ty l + count_type ty l')%nat.
Proof. unfold count_type. by rewrite List.filter_app, length_app. Qed.

Lemma count_page_app pn l l' :
  count_page pn (l ++ l') = (count_page pn l + count_page pn l')%nat.
Proof. unfold count_page. by rewrite List.filter_app, length_app. Qed.

Lemma extends_refl acc : extends acc acc [].
Proof.
  exists []. rewrite app_nil_r. unfold count_type, count_page.
  split_and!; [done|constructor|..]; intros; simpl; lia.
Qed.

Lemma extends_trans a b c ts1 ts2 :
  extends a b ts1 → extends b c ts2 → extends a c (ts1 ++ ts2).
Proof.
  intros (n1 & Hi1 & Hf1 & Ht1 & Hy1 & Hp1 & Hgy1 & Hgp1)
         (n2 & Hi2 & Hf2 & Ht2 & Hy2 & Hp2 & Hgy2 & Hgp2).
  exists (n1 ++ n2). rewrite length_app. split_and!.
  - by rewrite Hi2, Hi1, app_assoc.
  - by apply Forall2_app.
  - lia.
  - lia.
  - lia.
  - intros ty. rewrite Hgy2, Hgy1, count_type_app. lia.
  - intros pn. rewrite Hgp2, Hgp1, count_page_app. lia.
Qed.

(** One flagged token is visited. *)
Lemma extends_one acc pg i w it :
  make_item pg i w = Some it →
  extends acc
          (mkAcc (acc_items acc ++ [it])
                 (counter_incr (it_type it) (acc_by_type acc))
                 (counter_incr (page pg) (acc_by_page acc))
                 (S (acc_total acc)))
          [(pg, i, w)].
Proof.
  intros Hit. exists [it]. simpl. rewrite !counter_sum_incr.
  split_and!; [done|by repeat constructor|lia|lia|lia| |].
  - intros ty. rewrite counter_get_incr. unfold count_type; simpl.
    case_bool_decide; destruct (decide (ty = it_type it)); simpl;
      congruence || lia.
  - intros pn. rewrite counter_get_incr. unfold count_page; simpl.
    assert (Hpg : it_page it = page pg)
      by (by destruct (item_of_position it pg i w Hit)).
    rewrite Hpg.
    case_bool_decide; destruct (decide (pn = page pg)); simpl;
      congruence || lia.
Qed.

(** The inner loop, from any position of the page on. *)
Lemma report_words pg (pre suf : list Word) acc :
  words pg = pre ++ suf →
  ∃ acc',
    foldl (report_word pg) (Some acc) (zip (seq (length pre) (length suf)) suf)
    = Some acc'
    ∧ extends acc acc'
        ((fun iw => (pg, fst iw, snd iw)) <$>
           List.filter (fun iw => flagged (snd iw))
                       (zip (seq (length pre) (length suf)) suf)).
Proof.
  revert pre acc. induction suf as [|w suf IH]; intros pre acc Hws.
  - exists acc. split; [done|apply extends_refl].
  - assert (Hw : words pg !! length pre = Some w).
    { rewrite Hws. by apply list_lookup_middle. }
    specialize (IH (pre ++ [w])). rewrite length_app, Nat.add_1_r in IH.
    simpl. destruct (flagged w) eqn:Hf; simpl.
    + destruct (make_item_some _ _ _ Hw) as [it Hit]. rewrite Hit.
      destruct (IH (mkAcc (acc_items acc ++ [it])
                          (counter_incr (it_type it) (acc_by_type acc))
                          (counter_incr (page pg) (acc_by_page acc))
                          (S (acc_total acc))))
        as (acc' & Hrun & Hext); [by rewrite <- app_assoc|].
      exists acc'. split; [done|].
      apply (extends_trans _ _ _ [(pg, length pre, w)] _ (extends_one _ _ _ _ _ Hit) Hext).
    + destruct (IH acc) as (acc' & Hrun & Hext); [by rewrite <- app_assoc|].
      by exists acc'.
Qed.

Lemma report_page_extends pg acc :
  ∃ acc', report_page (Some acc) pg = Some acc'
          ∧ extends acc acc' (page_tokens pg).
Proof. apply (report_words pg [] (words pg) acc eq_refl). Qed.

(** The outer loop. *)
Lemma report_pages_extends (doc : Document) acc :
  ∃ acc', foldl report_page (Some acc) doc = Some acc'
          ∧ extends acc acc' (flagged_tokens doc).
Proof.
  revert acc. induction doc as [|pg doc IH]; intros acc.
  - exists acc. split; [done|apply extends_refl].
  - simpl. destruct (report_page_extends pg acc) as (acc1 & -> & Hext1).
    destruct (IH acc1) as (acc' & Hrun & Hext).
    exists acc'. split; [done|].
    by apply (extends_trans _ _ _ _ _ Hext1 Hext).
Qed.

Lemma build_redaction_report_extends (doc : Document) :
  ∃ report,
    build_redaction_report doc = Some report
    ∧ extends (mkAcc [] [] [] 0)
              (mkAcc (items report) (by_type (summary report))
                     (by_page (summary report)) (total (summary report)))
              (flagged_tokens doc).
Proof.
  unfold build_redaction_report.
  destruct (report_pages_extends doc (mkAcc [] [] [] 0)) as (acc & -> & Hext).
  eexists. split; [done|]. simpl. by destruct acc.
Qed.

(** C10 — Report summary consistency: the report builder returns a report
    for every document; in it [summary.total] is the number of items, and
    the counts of [summary.by_type] and those of [summary.by_page] each add
    up to it, the count kept for a type or for a page being the number of
    items of that type or on that page; the items are, one for one and in
    the same order, the tokens of the document whose annotation has
    [is_pii] true, page after page and by ascending index within a page,
    each item carrying the page number and the index of its token. *)
Theorem C10_report_summary_consistency (doc : Document) :
  ∃ report,
    build_redaction_report doc = Some report
    ∧ total (summary report) = length (items report)
    ∧ counter_sum (by_type (summary report)) = total (summary report)
    ∧ counter_sum (by_page (summary report)) = total (summary report)
    ∧ (∀ ty, counter_get ty (by_type (summary report))
             = count_type ty (items report))
    ∧ (∀ pn, counter_get pn (by_page (summary report))
             = count_page pn (items report))
    ∧ length (items report) = length (flagged_tokens doc)
    ∧ Forall2 item_of (items report) (flagged_tokens doc)
    ∧ (fun it => (it_page it, it_index it)) <$> items report
      = (fun t => (page t.1.1, t.1.2)) <$> flagged_tokens doc.
Proof.
  destruct (build_redaction_report_extends doc)
    as (report & Hrun & new & Hitems & Hall & Htotal & Htype & Hpage
        & Hgtype & Hgpage).
  simpl in *. subst new. exists report. split_and!; try done; try lia.
  - by eapply Forall2_length.
  - clear -Hall. induction Hall as [|it [[pg i] w] its ts Hit _ IH]; [done|].
    rewrite !fmap_cons, IH. f_equal.
    apply item_of_position in Hit as [-> ->]. done.
Qed.

(** ** The CSV export *)

Lemma pretty_N_char_numeric x : is_num_char (pretty_N_char x) = true.
Proof. unfold pretty_N_char. by repeat case_match. Qed.

Lemma pretty_N_go_numeric x s :
  all_numeric s = true → all_numeric (pretty_N_go x s) = true.
Proof.
  revert s. induction (N.lt_wf_0 x) as [x _ IH]; intros s Hs.
  assert (x = 0 ∨ 0 < x)%N as [->|Hpos] by lia.
  - by rewrite pretty_N_go_0.
  - rewrite pretty_N_go_step by done. apply IH; [by apply N.div_lt|].
    simpl. by rewrite pretty_N_char_numeric.
Qed.

(** The decimal text of an integer is made of digits and a minus sign. *)
Lemma pretty_Z_numeric (z : Z) : all_numeric (pretty z) = true.
Proof.
  destruct z as [|p|p]; [done| |];
    unfold pretty, pretty_Z, pretty, pretty_positive, pretty, pretty_N;
    (case_decide; [done|]); simpl; by apply pretty_N_go_numeric.
Qed.

(** A number followed by a separator can be read back. *)
Lemma numeric_field_inj a a' c c' r r' :
  all_numeric a = true → all_numeric a' = true →
  is_num_char c = false → is_num_char c' = false →
  a +:+ String c r = a' +:+ String c' r' →
  a = a' ∧ r = r'.
Proof.
  revert a'. induction a as [|x a IH]; intros [|x' a'] Ha Ha' Hc Hc'; simpl.
  - by intros [= _ ->].
  - intros [= -> _]. simpl in Ha'. by rewrite Hc in Ha'.
  - intros [= -> _]. simpl in Ha. by rewrite Hc' in Ha.
  - intros [= -> Hrest]. simpl in Ha, Ha'.
    apply andb_true_iff in Ha as [_ Ha]. apply andb_true_iff in Ha' as [_ Ha'].
    by destruct (IH a' Ha Ha' Hc Hc' Hrest) as [-> ->].
Qed.

(** The single field that holds the bbox determines the bbox. *)
Lemma json_dumps_bbox_inj b b' :
  json_dumps_bbox b = json_dumps_bbox b' → b = b'.
Proof.
  destruct b as [[x y w h]|], b' as [[x' y' w' h']|]; simpl; try done.
  intros [= Heq].
  apply numeric_field_inj in Heq as [Hx [= Heq]];
    [|apply pretty_Z_numeric..|done|done].
  apply numeric_field_inj in Heq as [Hy [= Heq]];
    [|apply pretty_Z_numeric..|done|done].
  apply numeric_field_inj in Heq as [Hw [= Heq]];
    [|apply pretty_Z_numeric..|done|done].
  apply numeric_field_inj in Heq as [Hh _];
    [|apply pretty_Z_numeric..|done|done].
  apply (inj pretty) in Hx, Hy, Hw, Hh. by subst.
Qed.

Lemma opt_float_inj c c' : opt_float c = opt_float c' → c = c'.
Proof. destruct c, c'; simpl; congruence. Qed.

Lemma csv_row_inj r r' : csv_row r = csv_row r' → r = r'.
Proof.
  destruct r as [pg i ty src tx cf bb pw ph cx],
           r' as [pg' i' ty' src' tx' cf' bb' pw' ph' cx'].
  unfold csv_row; simpl.
  intros [= -> Hi -> -> -> Hc Hb -> -> ->].
  apply Nat2Z.inj in Hi as ->. apply json_dumps_bbox_inj in Hb as ->.
  by apply opt_float_inj in Hc as ->.
Qed.

(** C9 — Report/CSV parity: every document has a report, and the rows
    written for a report are the header followed by exactly one row per item,
    in the order of the items; the ten cells of the row of an item are its
    page, index, type, source, text, confidence, the JSON text of its bbox,
    page width, page height and context, and the item can be read back
    from them. *)
Theorem C9_report_csv_parity :
  (∀ doc : Document, is_Some (build_redaction_report doc))
  ∧ (∀ report : Report,
      ∃ data,
        report_to_csv_bytes report = csv_header :: data
        ∧ length data = length (items report)
        ∧ (∀ i, data !! i = csv_row <$> items report !! i)
        ∧ ∀ i row,
            data !! i = Some row ↔
            ∃ r, items report !! i = Some r
                 ∧ row = [ VInt (it_page r); VInt (Z.of_nat (it_index r));
                           VStr (it_type r); VStr (it_source r);
                           VStr (it_text r); opt_float (it_confidence r);
                           VStr (json_dumps_bbox (it_bbox r));
                           VInt (it_page_width r); VInt (it_page_height r);
                           VStr (it_context r) ])
  ∧ ∀ r r' : Item, csv_row r = csv_row r' ↔ r = r'.
Proof.
  split_and!; [| |intros r r'; split; [apply csv_row_inj|by intros ->]].
  - intros doc.
    destruct (build_redaction_report_extends doc) as (report & -> & _).
    by eexists.
  - intros report. exists (csv_row <$> items report). split_and!.
    + done.
    + apply length_fmap.
    + intros i. apply list_lookup_fmap.
    + intros i row. rewrite list_lookup_fmap.
      destruct (items report !! i) as [r|]; simpl.
      * split; [intros [= <-]; by exists r|by intros (r' & [= <-] & ->)].
      * split; [done|by intros (r' & ? & _)].
Qed.

(** ** Scenarios *)

(** Two tokens on page 1, "john@x.com" tagged [email] and "Main" tagged
    [address]; with the kept categories [{email}] the filter clears the
    address token and the redaction stage plans exactly one rectangle for
    page 1. *)
Example scenario_filter_then_redact :
  let doc := [mkPage 1 2550 3300
                [pii_word "john@x.com" scenario_bbox (flag "email");
                 pii_word "Main" (mkBBox 300 50 60 10)%Z (flag "address")]] in
  plan_sizes <$> main (A:=float) "all" 300 2%float [mkRect 0 0 612 792]%float
                      (filter_pii ["email"] doc)
  = Some [(1%Z, 1%nat)].
Proof. vm_compute. reflexivity. Qed.

(** An unknown category name is dropped from the selection, and a selection
    that becomes empty ends the run with nothing to do. *)
Example scenario_unknown_types :
  parse_types "email, bogus" = {[ "email" ]}
  ∧ main (A:=float) "bogus" 0 2%float [] [] = Some [].
Proof. split; vm_compute; reflexivity. Qed.

(** A zero chunk size makes [range] raise; a negative one leaves the page
    without chunks, every token unflagged. *)
Example scenario_chunk_sizes `{Patterns} (remote : nat → Reply) :
  tag_page remote 0 [ocr_word "a" scenario_bbox] = None
  ∧ tag_page remote (-1) [ocr_word "a" scenario_bbox]
    = Some [pii_word "a" scenario_bbox unflagged].
Proof. split; reflexivity. Qed.

(* ================================================================== *)
(** * Further properties of the code *)
(* ================================================================== *)

(** ** pii-identifier.py: write-back *)

(** X1 — [_mark]: the result has the length of the page, differs from it
    in annotations only, and the annotation of a position is decided by the
    last entry of the list that lands on it; a position no entry lands on
    keeps its word, and an entry that lands outside the page changes
    nothing. *)
Theorem mark_last_entry_wins (cur : list Word) (red : list Redaction)
    (start : nat) :
  length (_mark cur red start) = length cur
  ∧ (∀ a0, set_pii a0 <$> _mark cur red start = set_pii a0 <$> cur)
  ∧ (∀ p, _mark cur red start !! p
          = match last (hits start p red) with
            | Some r => set_pii (flag (r_type r)) <$> cur !! p
            | None => cur !! p
            end)
  ∧ (∀ r, (Z.of_nat start + r_index r < 0
           ∨ Z.of_nat (length cur) ≤ Z.of_nat start + r_index r)%Z →
          _mark cur (red ++ [r]) start = _mark cur red start).
Proof.
  split_and!.
  - apply mark_length.
  - intros a0. apply mark_only_pii.
  - intros p. apply mark_last_wins.
  - intros r Hout. rewrite mark_snoc. unfold mark_one. rewrite mark_length.
    destruct (Z.leb_spec 0 (Z.of_nat start + r_index r)) as [Hge|]; [|done].
    destruct (Z.ltb_spec (Z.of_nat start + r_index r) (Z.of_nat (length cur)))
      as [Hlt|]; [|done].
    lia.
Qed.

(** ** pii-identifier.py: the remote result *)

Lemma call_gemini_elem raw words red r :
  _call_gemini (ReplyRedactions raw) words = Some red →
  r ∈ red ↔
  ∃ e, e ∈ raw ∧ raw_index e = Some (r_index r)
       ∧ r_type r = default "other" (raw_type e)
       ∧ (0 ≤ r_index r < Z.of_nat (length words))%Z.
Proof.
  simpl. intros [= <-]. rewrite list_elem_of_omap. split.
  - intros (e & He & Hr). exists e. split; [done|].
    destruct (raw_index e) as [idx|]; [|done].
    destruct (Z.leb_spec 0 idx); [|done].
    destruct (Z.ltb_spec idx (Z.of_nat (length words))); [|done].
    simpl in Hr. injection Hr as <-. simpl. split_and!; try done; lia.
  - intros (e & He & Hidx & Hty & Hge & Hlt). exists e. split; [done|].
    rewrite Hidx.
    destruct (Z.leb_spec 0 (r_index r)); [|lia].
    destruct (Z.ltb_spec (r_index r) (Z.of_nat (length words))); [|lia].
    simpl. rewrite <- Hty. by destruct r.
Qed.

Lemma call_gemini_order raw words red :
  _call_gemini (ReplyRedactions raw) words = Some red →
  r_index <$> red `sublist_of` omap raw_index raw.
Proof.
  simpl. intros [= <-]. induction raw as [|e raw IH]; simpl; [done|].
  destruct (raw_index e) as [idx|]; simpl; [|done].
  destruct (_ && _); simpl; [by apply sublist_skip|by apply sublist_cons].
Qed.

(** X2 — [_call_gemini]: whenever it returns, every entry of the result
    has an index inside the chunk; an empty chunk gets an empty result
    whatever the service replied; for a well-formed reply the result holds
    exactly the entries with an integer index inside the chunk, in the
    order of the reply, with "other" for a missing type. *)
Theorem call_gemini_keeps_valid_entries (reply : Reply) (words : list Word)
    (red : list Redaction) :
  _call_gemini reply words = Some red →
  Forall (fun r => (0 ≤ r_index r < Z.of_nat (length words))%Z) red
  ∧ (words = [] → red = [])
  ∧ (∀ raw, reply = ReplyRedactions raw →
       (∀ r, r ∈ red ↔
             ∃ e, e ∈ raw ∧ raw_index e = Some (r_index r)
                  ∧ r_type r = default "other" (raw_type e)
                  ∧ (0 ≤ r_index r < Z.of_nat (length words))%Z)
       ∧ r_index <$> red `sublist_of` omap raw_index raw).
Proof.
  intros Hcall.
  assert (Hrange : Forall (fun r => (0 ≤ r_index r < Z.of_nat (length words))%Z) red).
  { apply Forall_forall. intros r Hr.
    destruct (call_gemini_in_chunk _ _ _ _ Hcall Hr) as (k & w & -> & Hw).
    apply lookup_lt_Some in Hw. lia. }
  split_and!; [done| |].
  - intros ->. destruct red as [|r red]; [done|].
    apply Forall_cons in Hrange as [Hr _]. simpl in Hr. lia.
  - intros raw ->. split.
    + intros r. by apply (call_gemini_elem raw words).
    + by apply (call_gemini_order raw words).
Qed.

Lemma call_gemini_keeps_valid_entries_witness :
  let ws := [ocr_word "Jane" scenario_bbox; ocr_word "Doe" scenario_bbox] in
  let reply := ReplyRedactions [mkRawEntry (Some 1%Z) None;
                                mkRawEntry (Some 2%Z) (Some "name");
                                mkRawEntry None (Some "name");
                                mkRawEntry (Some (-1)%Z) (Some "name")] in
  _call_gemini reply ws = Some [mkRedaction 1 "other"]
  ∧ Forall (fun r => (0 ≤ r_index r < 2)%Z) [mkRedaction 1 "other"].
Proof.
  intros ws reply. split; [reflexivity|].
  apply (call_gemini_keeps_valid_entries reply ws [mkRedaction 1 "other"]).
  reflexivity.
Defined.

(** ** pii-identifier.py: the fallback *)

(** A loop that only appends is the concatenation of what it appends. *)
Lemma foldl_appending {X Y} (step : list Y → X → list Y)
    (contrib : X → list Y) :
  (∀ out x, step out x = out ++ contrib x) →
  ∀ l out, foldl step out l = out ++ concat (contrib <$> l).
Proof.
  intros Hstep. induction l as [|x l IH]; intros out; simpl.
  - by rewrite app_nil_r.
  - by rewrite IH, Hstep, <- app_assoc.
Qed.

Lemma enumerate_lookup {A} (l : list A) (i : nat) (x : A) :
  l !! i = Some x → (i, x) ∈ Py.enumerate l.
Proof.
  intros Hl. apply list_elem_of_lookup. exists i. unfold Py.enumerate.
  apply lookup_zip_with_Some. exists i, x. split_and!; [done| |done].
  apply lookup_seq. split; [done|]. by eapply lookup_lt_Some.
Qed.

Lemma regex_scan_concat `{Patterns} (ws : list Word) :
  regex_scan ws = concat (scanned ws <$> Py.enumerate ws).
Proof.
  unfold regex_scan.
  rewrite (foldl_appending _ (scanned ws)); [done|].
  intros out [i w]. unfold scanned; simpl.
  destruct (regex_type_at ws i w); [done|by rewrite app_nil_r].
Qed.

Lemma elem_of_concat {X} (x : X) (ls : list (list X)) :
  x ∈ concat ls ↔ ∃ l, x ∈ l ∧ l ∈ ls.
Proof.
  induction ls as [|l ls IH]; simpl.
  - split; [by intros ?%elem_of_nil|]. by intros (l & _ & ?%elem_of_nil).
  - rewrite elem_of_app, IH. split.
    + intros [Hx|(l' & Hx & Hl')]; [exists l|exists l'];
        (split; [done|]); [by left|by right].
    + intros (l' & Hx & [->|Hl']%elem_of_cons); [by left|].
      right. by exists l'.
Qed.

Lemma regex_scan_elem `{Patterns} (ws : list Word) (r : Redaction) :
  r ∈ regex_scan ws ↔
  ∃ k w, ws !! k = Some w ∧ r_index r = Z.of_nat k
         ∧ regex_type_at ws k w = Some (r_type r).
Proof.
  rewrite regex_scan_concat, elem_of_concat. split.
  - intros (l & Hr & (iw & -> & Hiw)%list_elem_of_fmap).
    destruct iw as [k w]. apply enumerate_elem in Hiw.
    unfold scanned in Hr; simpl in Hr.
    destruct (regex_type_at ws k w) as [ty|] eqn:Hty;
      [|by apply elem_of_nil in Hr].
    apply list_elem_of_singleton in Hr as ->. by exists k, w.
  - intros (k & w & Hw & Hk & Hty). exists (scanned ws (k, w)). split.
    + unfold scanned; simpl. rewrite Hty. apply list_elem_of_singleton.
      destruct r; simpl in *. by subst.
    + apply list_elem_of_fmap. exists (k, w). split; [done|].
      by apply enumerate_lookup.
Qed.

Lemma scanned_indices `{Patterns} (ws l : list Word) (k : nat) :
  r_index <$> concat (scanned ws <$> zip (seq k (length l)) l)
  `sublist_of` (Z.of_nat <$> seq k (length l)).
Proof.
  revert k. induction l as [|w l IH]; intros k; simpl; [done|].
  rewrite fmap_app. unfold scanned at 1; simpl.
  destruct (regex_type_at ws k w); simpl.
  - apply sublist_skip, IH.
  - apply sublist_cons, IH.
Qed.

Lemma first_by_index_id seen (l : list Redaction) :
  NoDup (r_index <$> l) → (∀ r, r ∈ l → r_index r ∉ seen) →
  first_by_index seen l = l.
Proof.
  revert seen. induction l as [|r l IH]; intros seen Hnd Hseen; simpl; [done|].
  apply NoDup_cons in Hnd as [Hnotin Hnd].
  rewrite bool_decide_eq_false_2 by (apply Hseen; by left).
  f_equal. apply IH; [done|]. intros r' Hr'.
  apply not_elem_of_union. split; [|apply Hseen; by right].
  rewrite elem_of_singleton. intros Heq. apply Hnotin.
  apply list_elem_of_fmap. by exists r'.
Qed.

Lemma regex_type_at_some `{Patterns} (ws : list Word) k w ty :
  regex_type_at ws k w = Some ty →
  Py.strip (text w) ≠ ""
  ∧ ty ∈ FALLBACK_TYPES
  ∧ (EMAIL_RE (Py.strip (text w)) = true → ty = "email")
  ∧ (ty = "ip" → IPV4_RE (Py.strip (text w)) = true).
Proof.
  unfold regex_type_at, FALLBACK_TYPES; cbv zeta. intros Hty.
  destruct (Py.truthy (Py.strip (text w))) eqn:Ht; cbn [negb] in Hty; [|done].
  assert (Py.strip (text w) ≠ "") by (intros E; by rewrite E in Ht).
  destruct (EMAIL_RE _) eqn:He.
  { injection Hty as <-. split_and!; [done|set_solver|done|done]. }
  destruct (IPV4_RE _) eqn:Hi.
  { injection Hty as <-. split_and!; [done|set_solver|done|done]. }
  destruct (PHONE_RE _).
  { injection Hty as <-. split_and!; [done|set_solver|done|done]. }
  destruct (existsb _ ADDR_CUES); [|done].
  injection Hty as <-. split_and!; [done|set_solver|done|done].
Qed.

(** X3 — [regex_pii_indices]: the scan reports each position at most once
    and in ascending order, so the "distinct by index" loop never removes
    anything; the result holds exactly one entry for every word the scan
    gives a type to; such a word has a non-blank text, its type is one of
    email, ip, phone and address, and a word the e-mail pattern matches is
    always typed email. *)
Theorem regex_pii_indices_ascending `{Patterns} (ws : list Word) :
  regex_pii_indices ws = regex_scan ws
  ∧ r_index <$> regex_pii_indices ws
    `sublist_of` (Z.of_nat <$> seq 0 (length ws))
  ∧ NoDup (r_index <$> regex_pii_indices ws)
  ∧ (∀ r, r ∈ regex_pii_indices ws ↔
          ∃ k w, ws !! k = Some w ∧ r_index r = Z.of_nat k
                 ∧ regex_type_at ws k w = Some (r_type r))
  ∧ (∀ r k w, r ∈ regex_pii_indices ws → r_index r = Z.of_nat k →
              ws !! k = Some w →
              Py.strip (text w) ≠ ""
              ∧ r_type r ∈ FALLBACK_TYPES
              ∧ (EMAIL_RE (Py.strip (text w)) = true → r_type r = "email")).
Proof.
  assert (Hsub : r_index <$> regex_scan ws
                 `sublist_of` (Z.of_nat <$> seq 0 (length ws))).
  { rewrite regex_scan_concat. apply scanned_indices. }
  assert (Hnd : NoDup (r_index <$> regex_scan ws)).
  { eapply sublist_NoDup; [|done].
    apply NoDup_fmap_2; [apply _|apply NoDup_seq]. }
  assert (Heq : regex_pii_indices ws = regex_scan ws).
  { unfold regex_pii_indices. rewrite distinct_by_index_first.
    apply first_by_index_id; [done|set_solver]. }
  rewrite Heq. split_and!; [done|done|done|apply regex_scan_elem|].
  intros r k w Hr Hk Hw.
  apply regex_scan_elem in Hr as (k' & w' & Hw' & Hk' & Hty).
  assert (k' = k) as -> by lia. rewrite Hw in Hw'. injection Hw' as <-.
  apply regex_type_at_some in Hty as (? & ? & ? & _). done.
Qed.

(** ** pii-identifier.py: chunks *)

(** With enough fuel the range stops at the first offset past the end. *)
Lemma range_from_length fuel i stop step :
  (0 < step)%nat → (stop ≤ i + fuel)%nat →
  let n := length (Py.range_from fuel i stop step) in
  (stop ≤ i + n * step)%nat ∧ ((0 < n)%nat → (i + (n - 1) * step < stop)%nat).
Proof.
  intros Hstep. revert i. induction fuel as [|fuel IH]; intros i Hfuel; simpl.
  - split; lia.
  - destruct (Nat.ltb_spec i stop) as [Hlt|Hge]; simpl; [|split; lia].
    destruct (IH (i + step)%nat ltac:(lia)) as [Hup Hlow].
    set (n := length (Py.range_from fuel (i + step) stop step)) in *.
    split; [lia|]. intros _. rewrite Nat.sub_0_r.
    destruct n as [|n]; [lia|].
    specialize (Hlow ltac:(lia)). simpl in Hlow. rewrite Nat.sub_0_r in Hlow.
    lia.
Qed.

(** X4 — [_chunk]: for a chunk size [N > 0] a page of [n] words is cut into
    the ceiling of [n / N] chunks (none for an empty page); no chunk is
    empty, none has more than [N] words, every chunk but the last has
    exactly [N], and the last one holds the words left over. *)
Theorem chunk_count_and_sizes {A} (l : list A) (N : Z) :
  (0 < N)%Z →
  ∃ chunks,
    _chunk l N = Some chunks
    ∧ Z.of_nat (length chunks) = ((Z.of_nat (length l) + N - 1) / N)%Z
    ∧ ∀ j start items,
        chunks !! j = Some (start, items) →
        (0 < length items)%nat
        ∧ (Z.of_nat (length items) ≤ N)%Z
        ∧ ((S j < length chunks)%nat → Z.of_nat (length items) = N)
        ∧ (S j = length chunks →
           length items = (length l - j * Z.to_nat N)%nat).
Proof.
  intros HN. eexists. split; [by apply chunk_positive|].
  rewrite length_fmap.
  destruct (range_from_length (length l) 0 (length l) (Z.to_nat N)
              ltac:(lia) ltac:(lia)) as [Hup Hlow].
  set (starts := Py.range_from (length l) 0 (length l) (Z.to_nat N)) in *.
  set (m := length starts) in *. simpl in Hup, Hlow.
  split.
  - apply (Z.div_unique _ _ _
             (Z.of_nat (length l) + N - 1 - N * Z.of_nat m)%Z); [|lia].
    left. destruct m as [|m]; [nia|].
    specialize (Hlow ltac:(lia)). simpl in Hlow. rewrite Nat.sub_0_r in Hlow.
    nia.
  - intros j start items Hj. rewrite list_lookup_fmap in Hj.
    destruct (starts !! j) as [i|] eqn:Hi; [|done].
    simpl in Hj. injection Hj as <- <-.
    assert (Hjm : (j < m)%nat) by (by eapply lookup_lt_Some).
    apply range_from_lookup in Hi as [-> Hlt]. simpl in Hlt |- *.
    rewrite length_take, length_drop.
    split_and!; [lia|lia| |].
    + intros Hnext.
      destruct (lookup_lt_is_Some_2 starts (S j) Hnext) as [i' Hi'].
      apply range_from_lookup in Hi' as [-> Hlt']. simpl in Hlt'. nia.
    + intros Hlast. subst m. rewrite <- Hlast in Hup. simpl in Hup.
      revert Hup. clear. generalize (j * Z.to_nat N)%nat, (Z.to_nat N), (length l). lia.
Qed.

Lemma chunk_count_and_sizes_witness :
  ∃ chunks,
    _chunk [1; 2; 3; 4; 5]%nat 2 = Some chunks
    ∧ length chunks = 3%nat
    ∧ snd <$> chunks = [[1; 2]; [3; 4]; [5]]%nat.
Proof.
  destruct (chunk_count_and_sizes [1; 2; 3; 4; 5]%nat 2 ltac:(lia))
    as (chunks & Hc & _ & _).
  exists chunks. split; [done|].
  vm_compute in Hc. injection Hc as <-. split; reflexivity.
Defined.

(** ** pii-identifier.py: the chunks of a page do not interfere *)

Lemma mark_one_middle (pre mid post : list Word) (r : Redaction) :
  (0 ≤ r_index r < Z.of_nat (length mid))%Z →
  mark_one (length pre) (pre ++ mid ++ post) r
  = pre ++ mark_one 0 mid r ++ post.
Proof.
  intros Hr. unfold mark_one.
  rewrite !length_app.
  destruct (Z.leb_spec 0 (Z.of_nat (length pre) + r_index r)) as [_|]; [|lia].
  destruct (Z.ltb_spec (Z.of_nat (length pre) + r_index r)
              (Z.of_nat (length pre + (length mid + length post))))
    as [_|]; [|lia].
  destruct (Z.leb_spec 0 (Z.of_nat 0 + r_index r)) as [_|]; [|lia].
  destruct (Z.ltb_spec (Z.of_nat 0 + r_index r) (Z.of_nat (length mid)))
    as [_|]; [|lia].
  simpl.
  replace (Z.to_nat (Z.of_nat (length pre) + r_index r))
    with (length pre + Z.to_nat (r_index r))%nat by lia.
  rewrite alter_app_r, alter_app_l by lia. done.
Qed.

Lemma mark_middle (pre mid post : list Word) (red : list Redaction) :
  Forall (in_chunk mid) red →
  _mark (pre ++ mid ++ post) red (length pre)
  = pre ++ _mark mid red 0 ++ post.
Proof.
  unfold _mark. revert mid. induction red as [|r red IH]; intros mid Hred;
    simpl; [done|].
  apply Forall_cons in Hred as [(k & w & Hk & Hw) Hred].
  apply lookup_lt_Some in Hw.
  rewrite mark_one_middle by lia. apply IH.
  eapply Forall_impl; [exact Hred|].
  intros r' (k' & w' & Hk' & Hw'). apply lookup_lt_Some in Hw'.
  destruct (lookup_lt_is_Some_2 (mark_one 0 mid r) k') as [w'' Hw''];
    [by rewrite mark_one_length|].
  by exists k', w''.
Qed.

Section ChunkIndependence.
Context `{Patterns}.
Variable remote : nat → Reply.

(** The loop of [tag_page] from the chunk at offset [i] on, when the words
    before [i] are done and the words from [i] on are still as they were. *)
Lemma tag_loop_chunkwise (tagged0 : list Word) (n : nat) :
  (0 < n)%nat →
  ∀ fuel i done log0,
    (length tagged0 ≤ i + fuel)%nat →
    length done = i `min` length tagged0 →
    let chunks :=
      (fun i => (i, take n (drop i tagged0)))
        <$> Py.range_from fuel i (length tagged0) n in
    foldl (tag_step remote) (done ++ drop i tagged0, log0) chunks
    = (done ++ concat (tag_chunk remote <$> chunks),
       log0 ++ ((fun c => classify_chunk remote (fst c) (snd c)) <$> chunks)).
Proof.
  intros Hn. induction fuel as [|fuel IH]; intros i done log0 Hfuel Hdone;
    simpl.
  - rewrite drop_ge by lia. by rewrite !app_nil_r.
  - destruct (Nat.ltb_spec i (length tagged0)) as [Hlt|Hge]; simpl.
    2:{ rewrite drop_ge by lia. by rewrite !app_nil_r. }
    assert (Hlen : length done = i) by lia.
    set (items := take n (drop i tagged0)).
    assert (Hitems : Py.slice (done ++ drop i tagged0) i (i + length items)
                     = items).
    { rewrite slice_step. rewrite drop_app_length' by done.
      unfold items. rewrite length_take.
      destruct (Nat.le_gt_cases n (length (drop i tagged0))).
      - by rewrite Nat.min_l.
      - by rewrite Nat.min_r, (take_ge _ n), take_ge by lia. }
    rewrite Hitems.
    set (tr := classify_chunk remote i items).
    assert (Hsplit : drop i tagged0 = items ++ drop (i + n) tagged0).
    { unfold items. rewrite <- (drop_drop tagged0 n i). symmetry.
      apply take_drop. }
    pose proof (mark_middle done items (drop (i + n) tagged0) (ct_written tr))
      as Hmark.
    rewrite Hlen in Hmark.
    rewrite Hsplit at 1. rewrite Hmark.
    2:{ apply Forall_forall. intros r Hr.
        by apply (written_in_chunk remote i). }
    rewrite (app_assoc done).
    etrans.
    { apply (IH (i + n)%nat (done ++ _mark items (ct_written tr) 0)
               (log0 ++ [tr])); [lia|].
      rewrite length_app, mark_length, Hlen. unfold items.
      rewrite length_take, length_drop. lia. }
    cbv zeta. rewrite <- !app_assoc. reflexivity.
Qed.

(** X5 — [tag_page]: the chunks of a page are classified independently.
    For a chunk size [N > 0] the classifiers of every chunk see the chunk's
    words with the default annotation, whatever was written for the chunks
    before it, every write lands inside the chunk it comes from, and the
    tagged page is the concatenation of the chunks, each one tagged as if it
    were alone.  The trace has one entry per chunk, so the remote service is
    called as many times as the ceiling of the word count over [N]. *)
Theorem tag_page_chunks_independent (N : Z) (words : list Word) :
  (0 < N)%Z →
  ∃ chunks,
    _chunk (set_pii unflagged <$> words) N = Some chunks
    ∧ tag_page_traced remote N words
      = Some (concat (tag_chunk remote <$> chunks),
              (fun c => classify_chunk remote (fst c) (snd c)) <$> chunks)
    ∧ tag_page remote N words = Some (concat (tag_chunk remote <$> chunks))
    ∧ Z.of_nat (length chunks) = ((Z.of_nat (length words) + N - 1) / N)%Z
    ∧ Forall (fun c =>
                Forall (in_chunk (snd c))
                       (ct_written (classify_chunk remote (fst c) (snd c))))
             chunks.
Proof.
  intros HN. set (tagged0 := set_pii unflagged <$> words).
  assert (Hc := chunk_positive tagged0 N HN).
  assert (Hrun : tag_page_traced remote N words
                 = Some (concat (tag_chunk remote <$>
                           ((fun i => (i, take (Z.to_nat N) (drop i tagged0)))
                              <$> Py.range_from (length tagged0) 0
                                    (length tagged0) (Z.to_nat N))),
                         (fun c => classify_chunk remote (fst c) (snd c)) <$>
                           ((fun i => (i, take (Z.to_nat N) (drop i tagged0)))
                              <$> Py.range_from (length tagged0) 0
                                    (length tagged0) (Z.to_nat N)))).
  { unfold tag_page_traced. fold unflagged. fold tagged0. rewrite Hc. simpl.
    f_equal.
    exact (tag_loop_chunkwise tagged0 (Z.to_nat N) ltac:(lia)
             (length tagged0) 0%nat [] [] ltac:(lia) eq_refl). }
  eexists. split; [exact Hc|]. split; [exact Hrun|]. split.
  { unfold tag_page. by rewrite Hrun. }
  split.
  - rewrite length_fmap.
    destruct (range_from_length (length tagged0) 0 (length tagged0)
                (Z.to_nat N) ltac:(lia) ltac:(lia)) as [Hup Hlow].
    set (m := length (Py.range_from _ _ _ _)) in *. simpl in Hup, Hlow.
    unfold tagged0 in Hup, Hlow. rewrite length_fmap in Hup, Hlow.
    apply (Z.div_unique _ _ _
             (Z.of_nat (length words) + N - 1 - N * Z.of_nat m)%Z); [|lia].
    left. destruct m as [|m]; [nia|].
    specialize (Hlow ltac:(lia)). simpl in Hlow. rewrite Nat.sub_0_r in Hlow.
    nia.
  - apply Forall_forall. intros c _. apply Forall_forall. intros r.
    apply written_in_chunk.
Qed.

End ChunkIndependence.

Lemma tag_page_chunks_independent_witness :
  let engine : Patterns :=
    {| EMAIL_RE := Py.contains "@";
       PHONE_RE := fun _ => false;
       IPV4_RE := fun _ => false |} in
  let remote := fun start : nat =>
    if (start =? 0)%nat then ReplyRedactions [mkRawEntry (Some 1%Z) (Some "name")]
    else ReplyError in
  tag_page remote 2
    [ocr_word "Dear" scenario_bbox; ocr_word "John" scenario_bbox;
     ocr_word "j@x.org" scenario_bbox]
  = Some [pii_word "Dear" scenario_bbox unflagged;
          pii_word "John" scenario_bbox (flag "name");
          pii_word "j@x.org" scenario_bbox (flag "email")].
Proof.
  intros engine remote.
  destruct (tag_page_chunks_independent remote 2
              [ocr_word "Dear" scenario_bbox; ocr_word "John" scenario_bbox;
               ocr_word "j@x.org" scenario_bbox] ltac:(lia))
    as (chunks & Hc & _ & Hrun & _).
  rewrite Hrun. vm_compute in Hc. injection Hc as <-. reflexivity.
Defined.

(** ** pii-identifier.py: [main] *)

Lemma mark_one_annotated start cur r :
  Forall annotated cur → Forall annotated (mark_one start cur r).
Proof.
  intros Hcur. unfold mark_one. destruct (_ && _); [|done].
  apply Forall_alter; [done|]. intros w _ _. right. by exists (r_type r).
Qed.

Lemma mark_annotated cur red start :
  Forall annotated cur → Forall annotated (_mark cur red start).
Proof.
  unfold _mark. revert cur. induction red as [|r red IH]; intros cur Hcur;
    simpl; [done|].
  by apply IH, mark_one_annotated.
Qed.

Lemma tag_page_is_Some `{Patterns} (remote : nat → Reply) (N : Z)
    (words : list Word) :
  is_Some (tag_page remote N words) ↔ N ≠ 0%Z.
Proof.
  unfold tag_page, tag_page_traced, _chunk, Py.range_step.
  destruct (Z.eqb_spec N 0) as [->|Hne]; simpl.
  - split; [by intros [? ?]|done].
  - split; [done|]. intros _. destruct (N <? 0)%Z; by eexists.
Qed.

Lemma tag_page_negative `{Patterns} (remote : nat → Reply) (N : Z)
    (words : list Word) :
  (N < 0)%Z →
  tag_page_traced remote N words = Some (set_pii unflagged <$> words, []).
Proof.
  intros HN. unfold tag_page_traced, _chunk, Py.range_step.
  destruct (Z.eqb_spec N 0) as [|_]; [lia|].
  by destruct (Z.ltb_spec N 0) as [_|]; [|lia].
Qed.

Lemma tag_page_annotated `{Patterns} (remote : nat → Reply) (N : Z)
    (words tagged : list Word) :
  tag_page remote N words = Some tagged → Forall annotated tagged.
Proof.
  unfold tag_page, tag_page_traced. intros Hrun.
  set (tagged0 := set_pii unflagged <$> words).
  change (set_pii _ <$> words) with tagged0 in Hrun.
  destruct (_chunk tagged0 N) as [chunks|] eqn:Hc; [|done].
  destruct (tag_loop remote unflagged tagged0 chunks (chunk_slices _ _ _ Hc)
              tagged0 [] eq_refl) as (log & Hfold & _).
  simpl in Hrun. rewrite Hfold in Hrun. simpl in Hrun. injection Hrun as <-.
  assert (Hstart : Forall annotated tagged0).
  { apply Forall_fmap, Forall_forall. intros w _. by left. }
  revert Hstart. generalize tagged0. clear.
  induction log as [|tr log IH]; intros cur Hcur; simpl; [done|].
  by apply IH, mark_annotated.
Qed.

Section MainProperties.
Context `{Patterns}.
Variable remote : nat → nat → Reply.

Lemma tag_pages_is_Some (N : Z) (data : list Page) (k : nat) :
  is_Some (tag_pages remote N k data) ↔ N ≠ 0%Z ∨ data = [].
Proof.
  revert k. induction data as [|pg rest IH]; intros k; simpl.
  - split; [by right|by eexists].
  - destruct (tag_page (remote k) N (words pg)) as [tagged|] eqn:Ht.
    + assert (HN : N ≠ 0%Z) by (apply (tag_page_is_Some (remote k) N (words pg));
                                 by eexists).
      rewrite fmap_is_Some, IH. split; [by left|by left].
    + split; [by intros [? ?]|]. intros [HN|]; [|done].
      apply (tag_page_is_Some (remote k) N (words pg)) in HN.
      rewrite Ht in HN. by destruct HN.
Qed.

Lemma tag_pages_tagged (N : Z) (data out : list Page) (k : nat) :
  tag_pages remote N k data = Some out →
  Forall2 (fun pg pg' =>
             tagged_page pg pg'
             ∧ ((N < 0)%Z → words pg' = set_pii unflagged <$> words pg))
          data out.
Proof.
  revert k out. induction data as [|pg rest IH]; intros k out; simpl.
  - intros [= <-]. constructor.
  - destruct (tag_page (remote k) N (words pg)) as [tagged|] eqn:Ht; [|done].
    destruct (tag_pages remote N (S k) rest) as [result|] eqn:Hrest; [|done].
    simpl. intros [= <-]. constructor; [|by eapply IH].
    split.
    + unfold tagged_page; simpl. split_and!; [done|done|done| | |].
      * by apply (tag_page_keeps_tokens (remote k) N _ _ unflagged).
      * intros a0. by apply (tag_page_keeps_tokens (remote k) N).
      * by eapply tag_page_annotated.
    + intros HN. simpl. unfold tag_page in Ht.
      rewrite tag_page_negative in Ht by done. by injection Ht as <-.
Qed.

(** X6 — [main] of pii-identifier.py: the run ends without writing when the
    API key is empty, or when the chunk size is zero and the document has a
    page; otherwise it writes a document with one page for every page read,
    in order, with the same page number, width and height and the same
    words in the same order, each word changed in its annotation only and
    annotated either as not sensitive or as sensitive with a type.  With a
    negative chunk size no word of the document is classified at all. *)
Theorem main_tags_every_page (GEMINI_API_KEY : string) (N : Z)
    (data : Document) :
  (is_Some (PiiIdentifier.main remote GEMINI_API_KEY N data)
   ↔ GEMINI_API_KEY ≠ "" ∧ (N ≠ 0%Z ∨ data = []))
  ∧ ∀ out,
      PiiIdentifier.main remote GEMINI_API_KEY N data = Some out →
      Forall2 (fun pg pg' =>
                 tagged_page pg pg'
                 ∧ ((N < 0)%Z → words pg' = set_pii unflagged <$> words pg))
              data out.
Proof.
  unfold PiiIdentifier.main. destruct GEMINI_API_KEY as [|c key]; simpl.
  - split; [|done]. split; [by intros [? ?]|]. by intros [? _].
  - split; [|intros out Hout; by apply (tag_pages_tagged N data out 0%nat)].
    rewrite tag_pages_is_Some. split; [done|by intros [_ ?]].
Qed.

End MainProperties.

(** ** redactor.py: the selection of types *)

Lemma in_list_filter {X} (p : X → bool) (l : list X) (x : X) :
  x ∈ List.filter p l ↔ x ∈ l ∧ p x = true.
Proof. rewrite !list_elem_of_In. apply List.filter_In. Qed.


(** ** redactor.py: the boxes of a page *)

Section PageBoxes.
Context {A : Type} `{PyNum A}.
Variables (margin scale : A) (page_rect : Rect A).

Lemma box_step_app wanted boxes w :
  box_step wanted margin scale page_rect boxes w
  = boxes ++ box_step wanted margin scale page_rect [] w.
Proof.
  unfold box_step. destruct (flagged w); simpl; [|by rewrite app_nil_r].
  case_bool_decide; simpl; [|by rewrite app_nil_r].
  destruct (bbox w) as [b|]; [|by rewrite app_nil_r].
  destruct (has_area _); [done|by rewrite app_nil_r].
Qed.

Lemma page_boxes_concat wanted ws :
  page_boxes wanted margin scale page_rect ws
  = concat ((fun w => page_boxes wanted margin scale page_rect [w]) <$> ws).
Proof.
  unfold page_boxes at 1.
  rewrite (foldl_appending _
             (fun w => page_boxes wanted margin scale page_rect [w])); [done|].
  intros out w. apply box_step_app.
Qed.

Lemma page_boxes_app wanted ws1 ws2 :
  page_boxes wanted margin scale page_rect (ws1 ++ ws2)
  = page_boxes wanted margin scale page_rect ws1
    ++ page_boxes wanted margin scale page_rect ws2.
Proof. by rewrite !page_boxes_concat, fmap_app, concat_app. Qed.

Lemma page_boxes_cons wanted w ws :
  page_boxes wanted margin scale page_rect (w :: ws)
  = page_boxes wanted margin scale page_rect [w]
    ++ page_boxes wanted margin scale page_rect ws.
Proof. apply (page_boxes_app wanted [w] ws). Qed.

(** The box of a single word. *)
Lemma page_boxes_one wanted w :
  (page_boxes wanted margin scale page_rect [w] = []
   ∧ ¬ (flagged w = true ∧ wtype_of w ∈ wanted
        ∧ ∃ b, bbox w = Some b
               ∧ has_area (clamp_rect (candidate_rect b margin scale)
                                      page_rect) = true))
  ∨ ∃ b, flagged w = true ∧ wtype_of w ∈ wanted ∧ bbox w = Some b
         ∧ has_area (clamp_rect (candidate_rect b margin scale) page_rect)
           = true
         ∧ page_boxes wanted margin scale page_rect [w]
           = [(clamp_rect (candidate_rect b margin scale) page_rect,
               wtype_of w)].
Proof.
  unfold page_boxes, box_step; simpl.
  destruct (flagged w); simpl; [|left; split; [done|by intros [? _]]].
  case_bool_decide as Hin; simpl; [|left; split; [done|by intros (_ & ? & _)]].
  destruct (bbox w) as [b|];
    [|left; split; [done|by intros (_ & _ & ? & ? & _)]].
  fold (candidate_rect b margin scale).
  destruct (has_area _) eqn:Harea.
  - right. by exists b.
  - left. split; [done|]. intros (_ & _ & b' & [= <-] & Harea').
    by rewrite Harea in Harea'.
Qed.

(** X8 — the loop over [words] in [main] of redactor.py: every word is
    handled on its own, so the boxes of a page are the boxes of its parts,
    in order; a word gets one box when it is flagged, its type is wanted,
    it has a bbox and the clipped rectangle has an area, and no box
    otherwise; hence there are never more boxes than flagged words, the
    types of the boxes follow the order of the flagged words, and a larger
    selection of types only adds boxes. *)
Theorem page_boxes_one_box_per_eligible_word (wanted : gset string) :
  (∀ ws1 ws2,
     page_boxes wanted margin scale page_rect (ws1 ++ ws2)
     = page_boxes wanted margin scale page_rect ws1
       ++ page_boxes wanted margin scale page_rect ws2)
  ∧ (∀ ws w b,
       w ∈ ws → flagged w = true → wtype_of w ∈ wanted → bbox w = Some b →
       has_area (clamp_rect (candidate_rect b margin scale) page_rect) = true →
       (clamp_rect (candidate_rect b margin scale) page_rect, wtype_of w)
       ∈ page_boxes wanted margin scale page_rect ws)
  ∧ (∀ ws, Forall (fun w => flagged w = false ∨ bbox w = None
                            ∨ ¬ (wtype_of w ∈ wanted)) ws →
           page_boxes wanted margin scale page_rect ws = [])
  ∧ (∀ ws, snd <$> page_boxes wanted margin scale page_rect ws
           `sublist_of` (wtype_of <$> List.filter flagged ws))
  ∧ (∀ ws, (length (page_boxes wanted margin scale page_rect ws)
            ≤ length (List.filter flagged ws))%nat)
  ∧ (∀ wanted' ws,
       wanted ⊆ wanted' →
       page_boxes wanted margin scale page_rect ws
       `sublist_of` page_boxes wanted' margin scale page_rect ws).
Proof.
  assert (Htypes : ∀ ws, snd <$> page_boxes wanted margin scale page_rect ws
                         `sublist_of` (wtype_of <$> List.filter flagged ws)).
  { induction ws as [|w ws IH]; [done|].
    rewrite page_boxes_cons, fmap_app. simpl.
    destruct (page_boxes_one wanted w)
      as [[-> _]|(b & Hf & _ & _ & _ & ->)].
    - simpl. destruct (flagged w); [by apply sublist_cons|done].
    - rewrite Hf. simpl. by apply sublist_skip. }
  split_and!.
  - apply page_boxes_app.
  - intros ws w b Hw Hf Hty Hb Harea.
    apply list_elem_of_split in Hw as (ws1 & ws2 & ->).
    rewrite page_boxes_app, page_boxes_cons, !elem_of_app.
    right; left.
    destruct (page_boxes_one wanted w)
      as [[_ Hnot]|(b' & _ & _ & Hb' & _ & ->)].
    + destruct Hnot. split_and!; [done|done|by exists b].
    + rewrite Hb in Hb'. injection Hb' as <-. by left.
  - induction 1 as [|w ws Hw _ IH]; [done|].
    rewrite page_boxes_cons, IH, app_nil_r.
    destruct (page_boxes_one wanted w)
      as [[-> _]|(b & Hf & Hty & Hb & _ & _)]; [done|].
    destruct Hw as [Hw|[Hw|Hw]]; [congruence|congruence|done].
  - done.
  - intros ws. specialize (Htypes ws). apply sublist_length in Htypes.
    by rewrite !length_fmap in Htypes.
  - intros wanted' ws Hsub. induction ws as [|w ws IH]; [done|].
    rewrite !(page_boxes_cons _ w ws).
    apply sublist_app; [|done].
    destruct (page_boxes_one wanted w)
      as [[-> _]|(b & Hf & Hty & Hb & Harea & ->)];
      [apply sublist_nil_l|].
    destruct (page_boxes_one wanted' w)
      as [[_ Hnot]|(b' & _ & _ & Hb' & _ & ->)].
    + destruct Hnot. split_and!; [done|by apply Hsub|by exists b].
    + rewrite Hb in Hb'. by injection Hb' as <-.
Qed.

End PageBoxes.

(** ** redactor.py: [main] *)

(** The redactor's reading of a type and the filter's normalisation of it
    agree up to normalisation. *)
Lemma normalize_wtype (w : Word) :
  _normalize_type (Some (wtype_of w)) = _normalize_type (pii_type w).
Proof.
  unfold wtype_of. destruct (pii_type w) as [s|]; [|done].
  destruct s as [|c s]; [done|].
  cbn [Py.str_or Py.truthy]. apply normalize_case_insensitive, lower_idem.
Qed.

Section RedactorMain.
Context {A : Type} `{PyNum A}.

Lemma page_in_doc_lookup (doc : list (Rect A)) (pinfo : Page) :
  page_in_doc doc pinfo = true →
  is_Some (doc !! Z.to_nat (page pinfo - 1)).
Proof.
  unfold page_in_doc. intros [H1 H2]%andb_true_iff.
  apply Z.leb_le in H1, H2. apply lookup_lt_is_Some_2. lia.
Qed.

Lemma page_in_doc_skip (doc : list (Rect A)) (pinfo : Page) :
  (page pinfo <? 1)%Z || (Z.of_nat (length doc) <? page pinfo)%Z
  = negb (page_in_doc doc pinfo).
Proof.
  unfold page_in_doc. lia.
Qed.

(** X9 — [main] of redactor.py: with no known type selected the run ends at
    once with nothing planned, whatever the DPI; otherwise a DPI of zero
    ends it with a division by zero; and for a non-zero DPI the plan is
    computed and holds, in the order of the JSON, one entry for
    every page of the JSON whose number is between 1 and the number of
    pages of the PDF, with the boxes of that page's words computed against
    the rectangle of the PDF page of that number; pages of the JSON with
    another number are left out without an error, and a page number listed
    twice is planned twice.  The last part is stated for a DPI and bbox
    coordinates that Python converts to [float]: beyond the range of the
    doubles the conversion raises [OverflowError], which the arithmetic
    does not model. *)
Theorem redactor_main_plans_pages_of_the_pdf (types : string) (dpi : Z)
    (margin : A) (doc : list (Rect A)) (pages_json : Document) :
  (parse_types types = ∅ →
   Redactor.main types dpi margin doc pages_json = Some [])
  ∧ (parse_types types ≠ ∅ → dpi = 0%Z →
     Redactor.main types dpi margin doc pages_json = None)
  ∧ (parse_types types ≠ ∅ → dpi ≠ 0%Z →
     float_range dpi → document_float_range pages_json →
     ∃ plan,
       Redactor.main types dpi margin doc pages_json = Some plan
       ∧ fst <$> plan = page <$> List.filter (page_in_doc doc) pages_json
       ∧ Forall2 (fun pb pinfo =>
                    ∃ scale page_rect,
                      scale_of_dpi dpi = Some scale
                      ∧ doc !! Z.to_nat (page pinfo - 1) = Some page_rect
                      ∧ pb = (page pinfo,
                              page_boxes (parse_types types) margin scale
                                         page_rect (words pinfo)))
                 plan (List.filter (page_in_doc doc) pages_json)).
Proof.
  unfold Redactor.main. cbv zeta. split_and!.
  - intros ->. by rewrite bool_decide_eq_true_2.
  - intros Hne ->. by rewrite bool_decide_eq_false_2.
  - intros Hne Hdpi _ _. rewrite bool_decide_eq_false_2 by done.
    rewrite (scale_of_dpi_nonzero dpi Hdpi).
    set (scale := (num_of_int 72 / num_of_int dpi)%num).
    eexists. split; [reflexivity|].
    assert (Hall : Forall2 (fun pb pinfo =>
                    ∃ scale' page_rect,
                      Some scale = Some scale'
                      ∧ doc !! Z.to_nat (page pinfo - 1) = Some page_rect
                      ∧ pb = (page pinfo,
                              page_boxes (parse_types types) margin scale'
                                         page_rect (words pinfo)))
              (omap (fun pinfo =>
                       if (page pinfo <? 1)%Z
                          || (Z.of_nat (length doc) <? page pinfo)%Z
                       then None
                       else (fun page_rect =>
                               (page pinfo,
                                page_boxes (parse_types types) margin scale
                                           page_rect (words pinfo)))
                              <$> doc !! Z.to_nat (page pinfo - 1))
                    pages_json)
              (List.filter (page_in_doc doc) pages_json)).
    { induction pages_json as [|pinfo rest IH]; simpl; [constructor|].
      rewrite page_in_doc_skip.
      destruct (page_in_doc doc pinfo) eqn:Hin; simpl; [|done].
      destruct (page_in_doc_lookup doc pinfo Hin) as [page_rect Hrect].
      rewrite Hrect. simpl. constructor; [|done].
      by exists scale, page_rect. }
    split; [|done].
    revert Hall. generalize (List.filter (page_in_doc doc) pages_json).
    intros l. induction 1 as [|pb pinfo plan l (? & ? & _ & _ & ->) _ IH];
      [done|].
    rewrite !fmap_cons. by f_equal.
Qed.

Lemma page_boxes_unflagged wanted (margin scale : A) page_rect w :
  flagged w = false → page_boxes wanted margin scale page_rect [w] = [].
Proof.
  intros Hf. unfold page_boxes. cbn [foldl]. unfold box_step.
  by rewrite Hf.
Qed.

Lemma kept_boxes_one (keep_types : list string) wanted (margin scale : A)
    page_rect w :
  flagged w = true →
  kept_boxes keep_types (page_boxes wanted margin scale page_rect [w])
  = if bool_decide (_normalize_type (pii_type w) ∈ keep_types)
    then page_boxes wanted margin scale page_rect [w] else [].
Proof.
  intros Hf.
  destruct (page_boxes_one margin scale page_rect wanted w)
    as [[-> _]|(b & _ & _ & _ & _ & ->)].
  - unfold kept_boxes. cbn [List.filter]. by destruct (bool_decide _).
  - unfold kept_boxes. cbn [List.filter snd]. rewrite normalize_wtype.
    by destruct (bool_decide _).
Qed.

Lemma page_boxes_filter_word (keep_types : list string) wanted
    (margin scale : A) page_rect w :
  page_boxes wanted margin scale page_rect [filter_word keep_types w]
  = kept_boxes keep_types (page_boxes wanted margin scale page_rect [w]).
Proof.
  destruct (flagged w) eqn:Hf.
  - rewrite kept_boxes_one by exact Hf.
    destruct (decide (_normalize_type (pii_type w) ∈ keep_types))
      as [Hin|Hnot].
    + rewrite (filter_word_kept keep_types w Hf Hin).
      by rewrite bool_decide_eq_true_2.
    + destruct (filter_word_cleared keep_types w Hf Hnot) as (a & _ & ->).
      rewrite bool_decide_eq_false_2 by exact Hnot.
      apply page_boxes_unflagged. reflexivity.
  - rewrite (filter_word_unflagged keep_types w Hf).
    rewrite page_boxes_unflagged by exact Hf. reflexivity.
Qed.

Lemma page_boxes_filter_words (keep_types : list string) wanted
    (margin scale : A) page_rect (ws : list Word) :
  page_boxes wanted margin scale page_rect (filter_word keep_types <$> ws)
  = kept_boxes keep_types (page_boxes wanted margin scale page_rect ws).
Proof.
  induction ws as [|w ws IH]; [reflexivity|].
  rewrite fmap_cons.
  rewrite (page_boxes_cons margin scale page_rect wanted
             (filter_word keep_types w)).
  rewrite (page_boxes_cons margin scale page_rect wanted w ws).
  rewrite IH, page_boxes_filter_word. unfold kept_boxes.
  by rewrite List.filter_app.
Qed.

(** X10 — the category filter of the UI followed by redactor.py: the boxes
    planned from a filtered page are those planned from the unfiltered
    page whose type, normalised, is one of the kept categories, in the
    same order and with the same rectangles; the same holds for the plan
    of a whole document.  So the filter never moves or adds a box, and
    removes exactly the boxes of the categories left out. *)
Theorem filter_then_redact_keeps_selected_boxes (keep_types : list string)
    (types : string) (dpi : Z) (margin : A) (doc : list (Rect A))
    (data : Document) :
  (∀ wanted scale page_rect (ws : list Word),
     page_boxes wanted margin scale page_rect (filter_word keep_types <$> ws)
     = kept_boxes keep_types (page_boxes wanted margin scale page_rect ws))
  ∧ Redactor.main types dpi margin doc (filter_pii keep_types data)
    = kept_plan keep_types <$> Redactor.main types dpi margin doc data.
Proof.
  split; [intros; apply page_boxes_filter_words|].
  unfold Redactor.main. cbv zeta.
  destruct (bool_decide (parse_types types = ∅)); [reflexivity|].
  destruct (scale_of_dpi dpi) as [scale|]; [|reflexivity].
  cbn [fmap option_fmap option_map]. f_equal. unfold kept_plan, filter_pii.
  induction data as [|pinfo rest IH]; [reflexivity|].
  rewrite fmap_cons. cbn [omap list_omap]. rewrite IH.
  cbn [page words filter_page].
  destruct (_ || _); [reflexivity|].
  destruct (doc !! _) as [page_rect|]; [|reflexivity].
  cbn [fmap option_fmap option_map]. rewrite fmap_cons. cbn [fst snd].
  by rewrite page_boxes_filter_words.
Qed.

End RedactorMain.

(** ** redactor.py: labels *)

Lemma label_for_type_lower (s : string) :
  label_for_type (Some (Py.lower s)) = label_for_type (Some s).
Proof.
  assert (E : Py.lower (Py.str_or (Some (Py.lower s)) "other")
              = Py.lower (Py.str_or (Some s) "other")).
  { unfold Py.str_or. rewrite truthy_lower.
    destruct (Py.truthy s); [apply lower_idem|reflexivity]. }
  unfold label_for_type. cbv zeta. by rewrite E.
Qed.

Lemma parse_types_subset (s : string) : parse_types s ⊆ ALL_TYPES.
Proof. unfold parse_types. destruct (String.eqb _ _); set_solver. Qed.

Lemma label_for_type_cases (t : option string) :
  let k := Py.lower (Py.str_or t "other") in
  (k ∈ ALL_TYPES ∧ (k, label_for_type t) ∈ TYPE_LABELS)
  ∨ (¬ (k ∈ ALL_TYPES) ∧ label_for_type t = "OTHER").
Proof.
  intros k. unfold label_for_type. cbv zeta. fold k. generalize k. clear.
  intros k. unfold TYPE_LABELS, ALL_TYPES. cbn [List.find fst].
  repeat (match goal with
          | |- context [String.eqb ?a k] =>
              destruct (String.eqb_spec a k) as [<-|?]
          end;
          [left; split; apply (bool_decide_unpack _); vm_compute; exact I|]).
  right. split; [|reflexivity].
  rewrite !elem_of_union, !elem_of_singleton. intros Hk.
  repeat destruct Hk as [Hk|Hk]; congruence.
Qed.

(** X11 — [label_for_type]: the label is always one of the seven of
    [TYPE_LABELS]; it does not depend on the letter case of the type; a
    missing, empty or unknown type (thus also "password") gets "OTHER"; on
    the seven known types the labels are pairwise distinct, so among the
    types [parse_types] can select only "other" is labelled "OTHER"; and
    the label of a box is the label of the type its word carries. *)
Theorem label_for_type_known_labels :
  (∀ t, label_for_type t ∈ (snd <$> TYPE_LABELS))
  ∧ (∀ s, label_for_type (Some (Py.lower s)) = label_for_type (Some s))
  ∧ (∀ t, Py.lower (Py.str_or t "other") ∉ ALL_TYPES →
          label_for_type t = "OTHER")
  ∧ label_for_type None = "OTHER" ∧ label_for_type (Some "") = "OTHER"
  ∧ label_for_type (Some "password") = "OTHER"
  ∧ (∀ ty ty', ty ∈ ALL_TYPES → ty' ∈ ALL_TYPES →
               label_for_type (Some ty) = label_for_type (Some ty') →
               ty = ty')
  ∧ (∀ types ty, ty ∈ parse_types types →
                 (label_for_type (Some ty) = "OTHER" ↔ ty = "other"))
  ∧ (∀ w, label_for_type (Some (wtype_of w)) = label_for_type (pii_type w)).
Proof.
  assert (Hinj : ∀ ty ty', ty ∈ ALL_TYPES → ty' ∈ ALL_TYPES →
               label_for_type (Some ty) = label_for_type (Some ty') →
               ty = ty').
  { intros ty ty'. unfold ALL_TYPES.
    rewrite !elem_of_union, !elem_of_singleton.
    intros Hty Hty'.
    repeat destruct Hty as [Hty|Hty]; subst ty;
      repeat destruct Hty' as [Hty'|Hty']; subst ty';
      (reflexivity || (vm_compute; discriminate)). }
  split_and!.
  - intros t. destruct (label_for_type_cases t) as [[_ Hin]|[_ ->]].
    + apply list_elem_of_fmap. by eexists (_, _).
    + apply (bool_decide_unpack _). vm_compute. exact I.
  - apply label_for_type_lower.
  - intros t Hnot. destruct (label_for_type_cases t) as [[Hin _]|[_ ->]];
      [by destruct Hnot|reflexivity].
  - reflexivity.
  - reflexivity.
  - reflexivity.
  - exact Hinj.
  - intros types ty Hin. split; [|by intros ->].
    intros Hlabel. apply Hinj; [|set_solver|by rewrite Hlabel].
    apply parse_types_subset in Hin. exact Hin.
  - intros w. unfold wtype_of. destruct (pii_type w) as [s|]; [|reflexivity].
    destruct s as [|c s]; [reflexivity|].
    cbn [Py.str_or Py.truthy]. apply label_for_type_lower.
Qed.

(** ** redactor.py: the rectangle and the token, in exact arithmetic *)

Lemma candidate_rect_covers (b : BBox Z) (m s x y : Q) :
  covers (candidate_rect b m s) x y ↔
  ((inject_Z (bx b) - m) * s <= x)%Q
  ∧ (x <= (inject_Z (bx b) + inject_Z (bw b) + m) * s)%Q
  ∧ ((inject_Z (by_ b) - m) * s <= y)%Q
  ∧ (y <= (inject_Z (by_ b) + inject_Z (bh b) + m) * s)%Q.
Proof.
  destruct (candidate_rect_exact b m s) as (E0 & E1 & E2 & E3).
  cbn [x0 y0 x1 y1] in E0, E1, E2, E3.
  unfold covers. rewrite E0, E1, E2, E3. reflexivity.
Qed.

Lemma candidate_rect_grows (b : BBox Z) (m m' s x y : Q) :
  (m <= m')%Q → (0 <= s)%Q →
  covers (candidate_rect b m s) x y → covers (candidate_rect b m' s) x y.
Proof.
  intros Hm Hs. rewrite !candidate_rect_covers.
  assert (Hms : (0 <= (m' - m) * s)%Q) by (apply Qmult_le_0_compat; lra).
  intros (? & ? & ? & ?). split_and!; lra.
Qed.

(** X12 — [expand_bbox], [px_to_pdf_rect] and [clamp_rect] in exact
    arithmetic, for a margin and a scale that are not negative: the
    rectangle computed for a token contains the token's own rectangle (the
    one computed with margin 0), a larger margin gives a larger rectangle,
    and after clipping the rectangle still contains every point of the
    token's rectangle that is on the page. *)
Theorem candidate_rect_covers_token (b : BBox Z) (m s : Q)
    (page_rect : Rect Q) :
  (0 <= m)%Q → (0 <= s)%Q →
  (∀ x y, covers (candidate_rect b 0%Q s) x y →
          covers (candidate_rect b m s) x y)
  ∧ (∀ m' x y, (m <= m')%Q → covers (candidate_rect b m s) x y →
               covers (candidate_rect b m' s) x y)
  ∧ (∀ x y, covers (candidate_rect b 0%Q s) x y → covers page_rect x y →
            covers (clamp_rect (candidate_rect b m s) page_rect) x y).
Proof.
  intros Hm Hs. split_and!.
  - intros x y. by apply candidate_rect_grows.
  - intros m' x y Hm'. by apply candidate_rect_grows.
  - intros x y Htoken Hpage. apply Rect_intersect_covers. split; [|done].
    by apply (candidate_rect_grows b 0%Q m).
Qed.

Lemma candidate_rect_covers_token_witness :
  covers (clamp_rect (candidate_rect scenario_bbox 2%Q (72 / 300)%Q)
                     letter_page)
         (30 # 1)%Q (13 # 1)%Q.
Proof.
  apply (candidate_rect_covers_token scenario_bbox 2%Q (72 / 300)%Q
           letter_page); [lra|vm_compute; discriminate| |].
  - unfold covers. vm_compute. repeat split; discriminate.
  - unfold covers. vm_compute. repeat split; discriminate.
Defined.

Lemma clamp_no_area (r p : Rect Q) :
  (Rect_width r <= 0)%Q ∨ (Rect_height r <= 0)%Q →
  has_area (clamp_rect r p) = false.
Proof.
  intros Hflat. apply not_true_iff_false. rewrite has_area_exact.
  revert Hflat.
  unfold Rect_width, Rect_height, clamp_rect, Rect_intersect;
    cbn [x0 y0 x1 y1 num_sub exact].
  intros Hflat [Hw Hh]. revert Hw Hh.
  case_ltb (x0 r) (x0 p); case_ltb (y0 r) (y0 p);
    case_ltb (x1 p) (x1 r); case_ltb (y1 p) (y1 r);
    intros Hw Hh; destruct Hflat; lra.
Qed.

Lemma candidate_rect_size (b : BBox Z) (m s : Q) :
  (Rect_width (candidate_rect b m s)
   == (inject_Z (bw b) + 2 * m) * s)%Q
  ∧ (Rect_height (candidate_rect b m s)
     == (inject_Z (bh b) + 2 * m) * s)%Q.
Proof.
  unfold Rect_width, Rect_height, candidate_rect, px_to_pdf_rect, expand_bbox;
    simpl.
  split; ring.
Qed.

Lemma box_step_flat (wanted : gset string) (m s : Q) (page_rect : Rect Q)
    (boxes : list (Rect Q * string)) (w : Word) (b : BBox Z) :
  bbox w = Some b →
  ((inject_Z (bw b) + 2 * m) * s <= 0)%Q
  ∨ ((inject_Z (bh b) + 2 * m) * s <= 0)%Q →
  box_step wanted m s page_rect boxes w = boxes.
Proof.
  intros Hb Hflat.
  destruct (box_step_cases wanted m s page_rect boxes w)
    as [Heq|(b' & _ & _ & Hb' & Harea & _)]; [done|].
  rewrite Hb in Hb'. injection Hb' as <-.
  rewrite clamp_no_area in Harea; [done|].
  destruct (candidate_rect_size b m s) as [-> ->]. done.
Qed.

Lemma scale_negative (dpi : Z) :
  (dpi < 0)%Z → (72 / inject_Z dpi < 0)%Q.
Proof.
  intros Hd.
  assert (Hneg : (inject_Z dpi < 0)%Q).
  { rewrite Zlt_Qlt in Hd. exact Hd. }
  assert (Hmul : (72 / inject_Z dpi * inject_Z dpi == 72)%Q).
  { field. lra. }
  nra.
Qed.

(** X13 — the loop of [main] of redactor.py in exact arithmetic: a token
    whose expanded box, scaled, has no positive width or no positive
    height gets no box, on any page and without an error.  This is so for
    a token of width or height zero with margin zero, for a negative
    margin of half the token's size or more, and, because a negative DPI
    gives a negative scale, for every token of a run with a negative DPI:
    such a run plans no rectangle at all. *)
Theorem flat_candidate_never_redacted (wanted : gset string) (m : Q)
    (page_rect : Rect Q) :
  (∀ s boxes w b,
     bbox w = Some b →
     ((inject_Z (bw b) + 2 * m) * s <= 0)%Q
     ∨ ((inject_Z (bh b) + 2 * m) * s <= 0)%Q →
     box_step wanted m s page_rect boxes w = boxes)
  ∧ (∀ s boxes w b,
       bbox w = Some b → (0 <= s)%Q →
       (inject_Z (bw b) <= - (2 * m))%Q ∨ (inject_Z (bh b) <= - (2 * m))%Q →
       box_step wanted m s page_rect boxes w = boxes)
  ∧ (∀ dpi ws,
       (dpi < 0)%Z → (0 <= m)%Q →
       Forall (fun w => ∀ b, bbox w = Some b → (0 <= bw b)%Z ∨ (0 <= bh b)%Z)
              ws →
       ∃ s, scale_of_dpi dpi = Some s ∧ (s < 0)%Q
            ∧ page_boxes wanted m s page_rect ws = []).
Proof.
  split_and!.
  - intros s boxes w b. apply box_step_flat.
  - intros s boxes w b Hb Hs Hsize. apply (box_step_flat _ _ _ _ _ _ b Hb).
    destruct Hsize as [Hsize|Hsize]; [left|right].
    + assert ((0 <= - (inject_Z (bw b) + 2 * m))%Q) as Hn by lra.
      pose proof (Qmult_le_0_compat _ _ Hn Hs). lra.
    + assert ((0 <= - (inject_Z (bh b) + 2 * m))%Q) as Hn by lra.
      pose proof (Qmult_le_0_compat _ _ Hn Hs). lra.
  - intros dpi ws Hd Hm Hws. exists (72 / inject_Z dpi)%Q.
    pose proof (scale_negative dpi Hd) as Hs.
    split; [exact (scale_of_dpi_nonzero (A:=Q) dpi ltac:(lia))|].
    split; [done|].
    set (s := (72 / inject_Z dpi)%Q) in *. clearbody s.
    induction Hws as [|w ws Hw _ IH]; [done|].
    rewrite (page_boxes_cons _ _ _ _ w ws), IH, app_nil_r.
    unfold page_boxes. cbn [foldl].
    destruct (bbox w) as [b|] eqn:Hb.
    + apply (box_step_flat _ _ _ _ _ _ b Hb).
      destruct (Hw b eq_refl) as [Hpos|Hpos]; [left|right];
        rewrite Zle_Qle in Hpos; change (inject_Z 0) with 0%Q in Hpos.
      * assert ((0 <= inject_Z (bw b) + 2 * m)%Q) as Hn by lra.
        assert ((0 <= - s)%Q) as Hs' by lra.
        pose proof (Qmult_le_0_compat _ _ Hn Hs'). lra.
      * assert ((0 <= inject_Z (bh b) + 2 * m)%Q) as Hn by lra.
        assert ((0 <= - s)%Q) as Hs' by lra.
        pose proof (Qmult_le_0_compat _ _ Hn Hs'). lra.
    + destruct (box_step_cases wanted m s page_rect [] w)
        as [Heq|(b' & _ & _ & Hb' & _)]; [done|congruence].
Qed.

(** ** Clipping and the redaction set *)








(** ** pos-ocr.py and redactor.py: the zoom and the scale *)

(** X14 — the zoom [dpi / 72.0] of pos-ocr.py and the scale
    [72.0 / dpi] of redactor.py, in exact arithmetic: the zoom of one run
    times the scale of another is the quotient of the two DPIs, so a
    non-zero length in points that the OCR stage renders in pixels and the
    redactor maps back to points is unchanged exactly when both stages were
    given the same DPI. *)
Theorem scale_undoes_zoom (dpi_ocr dpi_redact : Z) :
  dpi_redact ≠ 0%Z →
  ∃ s : Q,
    scale_of_dpi dpi_redact = Some s
    ∧ (PosOcr.zoom_of_dpi (A:=Q) dpi_ocr * s
       == inject_Z dpi_ocr / inject_Z dpi_redact)%Q
    ∧ ∀ x : Q, ¬ (x == 0)%Q →
        ((x * PosOcr.zoom_of_dpi (A:=Q) dpi_ocr) * s == x)%Q
        ↔ dpi_ocr = dpi_redact.
Proof.
  intros Hd. exists (72 / inject_Z dpi_redact)%Q.
  assert (Hd' : ¬ (inject_Z dpi_redact == 0)%Q).
  { change 0%Q with (inject_Z 0). by rewrite inject_Z_injective. }
  assert (Hprod : (PosOcr.zoom_of_dpi (A:=Q) dpi_ocr
                   * (72 / inject_Z dpi_redact)
                   == inject_Z dpi_ocr / inject_Z dpi_redact)%Q).
  { unfold PosOcr.zoom_of_dpi. cbn [num_div num_of_int exact].
    change (inject_Z 72) with 72%Q. field. exact Hd'. }
  split; [exact (scale_of_dpi_nonzero (A:=Q) dpi_redact Hd)|].
  split; [exact Hprod|].
  intros x Hx. rewrite <- Qmult_assoc, Hprod.
  rewrite <- (inject_Z_injective dpi_ocr dpi_redact).
  split.
  - intros Heq.
    assert (Hq : (inject_Z dpi_ocr / inject_Z dpi_redact == 1)%Q).
    { apply (Qmult_inj_l _ _ x); [exact Hx|]. rewrite Heq. ring. }
    rewrite <- (Qmult_1_l (inject_Z dpi_redact)), <- Hq. field. exact Hd'.
  - intros ->. field. exact Hd'.
Qed.

Lemma scale_undoes_zoom_witness :
  ∃ s : Q,
    scale_of_dpi 300 = Some s
    ∧ (PosOcr.zoom_of_dpi (A:=Q) 300 * s == 1)%Q.
Proof.
  destruct (scale_undoes_zoom 300 300 ltac:(lia)) as (s & Hs & Hprod & _).
  exists s. split; [exact Hs|]. rewrite Hprod. reflexivity.
Defined.

(** ** streamlit_app.py: the context of a report item *)

Lemma texts_app ws ws' : texts (ws ++ ws') = texts ws ++ texts ws'.
Proof. unfold texts. by rewrite fmap_app, List.filter_app. Qed.

Lemma texts_rev ws : texts (rev ws) = rev (texts ws).
Proof.
  induction ws as [|w ws IH]; [done|].
  cbn [rev]. rewrite texts_app, IH.
  change (w :: ws) with ([w] ++ ws). rewrite texts_app, rev_app_distr.
  f_equal. unfold texts. cbn. by destruct (Py.truthy _).
Qed.

Lemma collect_take n ws : collect n ws = take n (texts ws).
Proof.
  revert n. induction ws as [|w ws IH]; intros n; [by destruct n|].
  change (texts (w :: ws)) with (texts ([w] ++ ws)). rewrite texts_app.
  destruct n as [|n]; [done|]. cbn [collect]. cbv zeta.
  unfold texts at 1. cbn [fmap list_fmap List.filter].
  destruct (Py.truthy (_safe_text (text w))); cbn [app take firstn].
  - by rewrite IH.
  - apply IH.
Qed.

Lemma texts_only_text ws ws' : text <$> ws = text <$> ws' → texts ws = texts ws'.
Proof.
  intros Heq. unfold texts. f_equal.
  change (fun w => _safe_text (text w)) with (_safe_text ∘ text).
  by rewrite !list_fmap_compose, Heq.
Qed.

Lemma collect_context_window words idx left_n right_n :
  _collect_context words idx left_n right_n
  = (fun w =>
       Py.join " "
         (drop (length (texts (take idx words)) - left_n)
               (texts (take idx words))
          ++ [_safe_text (text w)]
          ++ take right_n (texts (drop (S idx) words))))
      <$> words !! idx.
Proof.
  unfold _collect_context. cbv zeta.
  destruct (words !! idx) as [w|]; [|done]. cbn [fmap option_fmap option_map].
  rewrite !collect_take, texts_rev.
  change (take left_n (rev ?l)) with (firstn left_n (rev l)).
  by rewrite firstn_rev, rev_involutive.
Qed.

Lemma collect_context_only_text words words' idx left_n right_n :
  text <$> words' = text <$> words →
  _collect_context words' idx left_n right_n
  = _collect_context words idx left_n right_n.
Proof.
  intros Heq. rewrite !collect_context_window.
  assert (Hlook : text <$> words' !! idx = text <$> words !! idx).
  { by rewrite <- !list_lookup_fmap, Heq. }
  rewrite (texts_only_text (take idx words') (take idx words))
    by (by rewrite !fmap_take, Heq).
  rewrite (texts_only_text (drop (S idx) words') (drop (S idx) words))
    by (by rewrite !fmap_drop, Heq).
  destruct (words' !! idx) as [w'|], (words !! idx) as [w|]; try done.
  simpl in Hlook. injection Hlook as Hlook. simpl. by rewrite Hlook.
Qed.

Lemma filter_word_text keep_types (ws : list Word) :
  text <$> (filter_word keep_types <$> ws) = text <$> ws.
Proof.
  rewrite <- list_fmap_compose.
  apply list_fmap_ext. intros _ w _. simpl.
  unfold filter_word. destruct (pii w) as [a|]; [|done].
  destruct (negb (is_pii a)); [done|]. cbv zeta.
  by destruct (bool_decide _).
Qed.

(** X15 — [_collect_context]: the call raises exactly when the index is
    not a position of the page; otherwise the context is, joined by single
    blanks, the last [left_n] non-blank stripped texts before the word (or
    all of them when there are fewer), the word's own stripped text, and
    the first [right_n] non-blank stripped texts after it, in reading
    order; blank words do not count towards the window.  The context
    depends on the texts of the page only: pages with the same texts give
    the same context, so filtering the categories leaves it unchanged. *)
Theorem collect_context_is_window_of_texts (words : list Word)
    (idx left_n right_n : nat) :
  (is_Some (_collect_context words idx left_n right_n)
   ↔ (idx < length words)%nat)
  ∧ (∀ w, words !! idx = Some w →
          ∃ left right,
            _collect_context words idx left_n right_n
            = Some (Py.join " " (left ++ [_safe_text (text w)] ++ right))
            ∧ left = drop (length (texts (take idx words)) - left_n)
                          (texts (take idx words))
            ∧ right = take right_n (texts (drop (S idx) words))
            ∧ (length left ≤ left_n)%nat ∧ (length right ≤ right_n)%nat
            ∧ Forall (fun t => t ≠ "") (left ++ right))
  ∧ (∀ words', text <$> words' = text <$> words →
               _collect_context words' idx left_n right_n
               = _collect_context words idx left_n right_n)
  ∧ (∀ keep_types,
       _collect_context (filter_word keep_types <$> words) idx left_n right_n
       = _collect_context words idx left_n right_n).
Proof.
  split_and!.
  - rewrite collect_context_window, fmap_is_Some. apply lookup_lt_is_Some.
  - intros w Hw. eexists _, _. split_and!; [|reflexivity|reflexivity| | |].
    + rewrite collect_context_window, Hw. reflexivity.
    + rewrite length_drop. lia.
    + rewrite length_take. lia.
    + assert (Hne : ∀ ws, Forall (fun t => t ≠ "") (texts ws)).
      { intros ws. apply Forall_forall. intros t Ht.
        unfold texts in Ht. apply in_list_filter in Ht as [_ Ht].
        by destruct t. }
      apply Forall_app. split.
      * apply Forall_drop, Hne.
      * apply Forall_take, Hne.
  - intros words'. apply collect_context_only_text.
  - intros keep_types. apply collect_context_only_text, filter_word_text.
Qed.

(** ** streamlit_app.py: the report of a filtered document *)

Lemma item_of_functional it it' t : item_of it t → item_of it' t → it = it'.
Proof. unfold item_of. congruence. Qed.

Lemma items_functional its its' ts :
  Forall2 item_of its ts → Forall2 item_of its' ts → its = its'.
Proof.
  intros Hits. revert its'.
  induction Hits as [|it t its ts Hit _ IH]; intros its' Hits'.
  - by apply Forall2_nil_inv_r in Hits'.
  - apply Forall2_cons_inv_r in Hits' as (it' & its0 & Hit' & Hits' & ->).
    f_equal; [by eapply item_of_functional|by apply IH].
Qed.

Lemma item_of_type it pg i w :
  item_of it (pg, i, w) → it_type it = _normalize_type (pii_type w).
Proof.
  unfold item_of, make_item; simpl.
  destruct (_collect_context _ _ _ _); [|done]. simpl. by intros [= <-].
Qed.

Lemma make_item_filter_page keep_types pg i w :
  make_item (filter_page keep_types pg) i w = make_item pg i w.
Proof.
  unfold make_item. cbn [filter_page page width height words].
  by rewrite (collect_context_only_text (words pg)
                _ i 3 3 (filter_word_text keep_types (words pg))).
Qed.

Lemma enumerate_from_fmap {X Y} (f : X → Y) (l : list X) (k : nat) :
  zip (seq k (length (f <$> l))) (f <$> l)
  = (fun iw => (fst iw, f (snd iw))) <$> zip (seq k (length l)) l.
Proof.
  revert k. induction l as [|x l IH]; intros k; [done|].
  cbn. f_equal. apply IH.
Qed.

(** The flagged tokens of a filtered page and the items built for them. *)
Lemma page_items_filter keep_types pg (ews : list (nat * Word)) its :
  Forall2 item_of its
    ((fun iw => (pg, fst iw, snd iw))
       <$> List.filter (fun iw => flagged (snd iw)) ews) →
  Forall2 item_of (kept_items keep_types its)
    ((fun iw => (filter_page keep_types pg, fst iw, snd iw))
       <$> List.filter (fun iw => flagged (snd iw))
             ((fun iw => (fst iw, filter_word keep_types (snd iw))) <$> ews)).
Proof.
  revert its. induction ews as [|[i w] ews IH]; intros its Hits.
  - apply Forall2_nil_inv_r in Hits as ->. constructor.
  - rewrite fmap_cons. cbn [List.filter fst snd] in Hits |- *.
    destruct (flagged w) eqn:Hf.
    + rewrite fmap_cons in Hits.
      apply Forall2_cons_inv_r in Hits as (it & its0 & Hit & Hits & ->).
      pose proof (item_of_type _ _ _ _ Hit) as Hty.
      unfold kept_items. cbn [List.filter]. rewrite Hty.
      destruct (decide (_normalize_type (pii_type w) ∈ keep_types))
        as [Hin|Hnot].
      * rewrite bool_decide_eq_true_2 by done.
        rewrite (filter_word_kept keep_types w Hf Hin), Hf, fmap_cons.
        constructor; [|by apply IH].
        unfold item_of in *. cbn [fst snd] in *.
        by rewrite make_item_filter_page.
      * rewrite bool_decide_eq_false_2 by done.
        destruct (filter_word_cleared keep_types w Hf Hnot) as (a & _ & ->).
        cbn [flagged pii set_pii is_pii]. by apply IH.
    + rewrite (filter_word_unflagged keep_types w Hf), Hf. by apply IH.
Qed.

Lemma kept_items_app keep_types its its' :
  kept_items keep_types (its ++ its')
  = kept_items keep_types its ++ kept_items keep_types its'.
Proof. unfold kept_items. apply List.filter_app. Qed.

Lemma flagged_tokens_cons pg (doc : Document) :
  flagged_tokens (pg :: doc) = page_tokens pg ++ flagged_tokens doc.
Proof. reflexivity. Qed.

Lemma document_items_filter keep_types (doc : Document) its :
  Forall2 item_of its (flagged_tokens doc) →
  Forall2 item_of (kept_items keep_types its)
          (flagged_tokens (filter_pii keep_types doc)).
Proof.
  revert its. induction doc as [|pg doc IH]; intros its Hits.
  - apply Forall2_nil_inv_r in Hits as ->. constructor.
  - unfold filter_pii in *. rewrite fmap_cons, !flagged_tokens_cons.
    rewrite flagged_tokens_cons in Hits.
    apply Forall2_app_inv_r in Hits as (its1 & its2 & Hits1 & Hits2 & ->).
    rewrite kept_items_app. apply Forall2_app; [|by apply IH].
    unfold page_tokens, Py.enumerate. cbn [filter_page words].
    rewrite enumerate_from_fmap. by apply page_items_filter.
Qed.

Lemma count_type_kept keep_types ty its :
  count_type ty (kept_items keep_types its)
  = if bool_decide (ty ∈ keep_types) then count_type ty its else 0%nat.
Proof.
  unfold count_type, kept_items.
  induction its as [|it its IH]; [by destruct (bool_decide _)|].
  cbn [List.filter].
  destruct (decide (it_type it = ty)) as [<-|Hne].
  - destruct (bool_decide (it_type it ∈ keep_types)) eqn:Hk.
    + cbn [List.filter]. rewrite !bool_decide_eq_true_2 by done.
      cbn [length]. by rewrite IH.
    + exact IH.
  - rewrite (bool_decide_eq_false_2 (it_type it = ty)) by done.
    destruct (bool_decide (it_type it ∈ keep_types)); [|exact IH].
    cbn [List.filter]. by rewrite bool_decide_eq_false_2 by done.
Qed.

Lemma kept_items_length keep_types its :
  (length (kept_items keep_types its) ≤ length its)%nat.
Proof. unfold kept_items. apply List.filter_length_le. Qed.

(** X16 — the category filter followed by [build_redaction_report]: the
    report of the filtered document lists exactly the items of the report
    of the unfiltered document whose type is one of the kept categories,
    unchanged (page, index, source, text, confidence, bbox and context
    included) and in the same order; its total is their number, and its
    count for a type is the unfiltered count when the type is kept and zero
    otherwise. *)
Theorem report_of_filtered_document (keep_types : list string)
    (doc : Document) :
  ∃ report report',
    build_redaction_report doc = Some report
    ∧ build_redaction_report (filter_pii keep_types doc) = Some report'
    ∧ items report' = kept_items keep_types (items report)
    ∧ Forall (fun it => it_type it ∈ keep_types) (items report')
    ∧ total (summary report') = length (kept_items keep_types (items report))
    ∧ (total (summary report') ≤ total (summary report))%nat
    ∧ ∀ ty, counter_get ty (by_type (summary report'))
            = if bool_decide (ty ∈ keep_types)
              then counter_get ty (by_type (summary report)) else 0%nat.
Proof.
  destruct (build_redaction_report_extends doc)
    as (report & Hrun & new & Hitems & Hall & Htotal & _ & _ & Hgtype & _).
  destruct (build_redaction_report_extends (filter_pii keep_types doc))
    as (report' & Hrun' & new' & Hitems' & Hall' & Htotal' & _ & _
        & Hgtype' & _).
  simpl in *. subst new new'.
  assert (Heq : items report' = kept_items keep_types (items report)).
  { eapply items_functional; [exact Hall'|].
    by apply document_items_filter. }
  exists report, report'. split_and!; try done.
  - rewrite Heq. apply Forall_forall. intros it Hit.
    unfold kept_items in Hit. apply in_list_filter in Hit as [_ Hit].
    by apply bool_decide_eq_true_1 in Hit.
  - by rewrite Htotal', Heq.
  - rewrite Htotal', Htotal, Heq. apply kept_items_length.
  - intros ty. rewrite Hgtype', Hgtype, Heq. apply count_type_kept.
Qed.

(** ** streamlit_app.py and redactor.py: the report and the plan *)

Lemma page_boxes_length_le {A} `{PyNum A} wanted (margin scale : A)
    page_rect (ws : list Word) :
  (length (page_boxes wanted margin scale page_rect ws)
   ≤ length (List.filter flagged ws))%nat.
Proof.
  induction ws as [|w ws IH]; [done|].
  rewrite (page_boxes_cons margin scale page_rect wanted w ws), length_app.
  cbn [List.filter].
  destruct (page_boxes_one margin scale page_rect wanted w)
    as [[-> _]|(b & Hf & _ & _ & _ & ->)].
  - destruct (flagged w); cbn [length]; lia.
  - rewrite Hf. cbn [length]. lia.
Qed.

Lemma enumerate_flagged_length (ws : list Word) (k : nat) :
  length (List.filter (fun iw : nat * Word => flagged (snd iw))
                      (zip (seq k (length ws)) ws))
  = length (List.filter flagged ws).
Proof.
  revert k. induction ws as [|w ws IH]; intros k; [done|].
  cbn. destruct (flagged w); cbn [length]; by rewrite IH.
Qed.

Lemma flagged_tokens_length (doc : Document) :
  length (flagged_tokens doc)
  = sum_list ((fun pg => length (List.filter flagged (words pg))) <$> doc).
Proof.
  induction doc as [|pg doc IH]; [done|].
  rewrite flagged_tokens_cons, length_app, fmap_cons, IH. cbn [sum_list].
  f_equal. unfold page_tokens. rewrite length_fmap.
  apply enumerate_flagged_length.
Qed.

Lemma omap_plan_bound {A} (f : Page → option (Z * list (Rect A * string)))
    (data : Document) :
  (∀ pg pb, f pg = Some pb →
            (length (snd pb) ≤ length (List.filter flagged (words pg)))%nat) →
  (length (omap f data) ≤ length data)%nat
  ∧ (plan_total (omap f data)
     ≤ sum_list ((fun pg => length (List.filter flagged (words pg)))
                   <$> data))%nat.
Proof.
  intros Hf. induction data as [|pg rest [IH1 IH2]]; [by cbn|].
  cbn [omap list_omap]. rewrite fmap_cons. cbn [sum_list sum_list_with length].
  destruct (f pg) as [pb|] eqn:Hpb.
  - apply Hf in Hpb. unfold plan_total in *. rewrite fmap_cons.
    cbn [sum_list sum_list_with length]. unfold id at 1 3. lia.
  - unfold id at 1. lia.
Qed.

(** X17 — redactor.py and the report of streamlit_app.py on the same
    document: the run of the redactor plans at most one entry per page of
    the JSON and never more boxes than the report counts items; the report
    is an upper bound of what is blacked out, not a record of it. *)
Theorem plan_never_exceeds_report {A} `{PyNum A} (types : string) (dpi : Z)
    (margin : A) (doc : list (Rect A)) (data : Document)
    (plan : list (Z * list (Rect A * string))) (report : Report) :
  Redactor.main types dpi margin doc data = Some plan →
  build_redaction_report data = Some report →
  (length plan ≤ length data)%nat
  ∧ (plan_total plan ≤ total (summary report))%nat
  ∧ (plan_total plan ≤ length (items report))%nat.
Proof.
  intros Hplan Hreport.
  destruct (build_redaction_report_extends data)
    as (report0 & Hrun & new & Hitems & Hall & Htotal & _).
  rewrite Hreport in Hrun. injection Hrun as <-. simpl in *. subst new.
  apply Forall2_length in Hall. rewrite flagged_tokens_length in Hall.
  rewrite Htotal, Hall. clear Hreport Htotal Hall.
  unfold Redactor.main in Hplan. cbv zeta in Hplan.
  destruct (bool_decide (parse_types types = ∅)).
  { injection Hplan as <-. unfold plan_total.
    cbn [length fmap list_fmap sum_list]. split_and!; lia. }
  destruct (scale_of_dpi dpi) as [scale|]; [|done].
  injection Hplan as <-.
  destruct (omap_plan_bound
              (fun pinfo =>
                 if (page pinfo <? 1)%Z
                    || (Z.of_nat (length doc) <? page pinfo)%Z
                 then None
                 else (fun page_rect =>
                         (page pinfo,
                          page_boxes (parse_types types) margin scale
                                     page_rect (words pinfo)))
                        <$> doc !! Z.to_nat (page pinfo - 1))
              data) as [Hlen Hsum].
  { intros pg pb. destruct (_ || _); [done|].
    destruct (doc !! _) as [page_rect|]; [|done].
    intros [= <-]. apply page_boxes_length_le. }
  split_and!; [exact Hlen|lia|exact Hsum].
Qed.

Lemma plan_never_exceeds_report_witness :
  let data := [mkPage 1 2550 3300
                 [pii_word "hunter2" scenario_bbox (flag "password");
                  pii_word "john@x.com" scenario_bbox (flag "email")]] in
  ∃ plan report,
    Redactor.main "all" 300 2%Q [letter_page] data = Some plan
    ∧ build_redaction_report data = Some report
    ∧ plan_total plan = 1%nat ∧ total (summary report) = 2%nat.
Proof.
  intros data.
  destruct (Redactor.main "all" 300 2%Q [letter_page] data) as [plan|] eqn:Hp;
    [|discriminate Hp].
  destruct (build_redaction_report data) as [report|] eqn:Hr;
    [|discriminate Hr].
  pose proof (plan_never_exceeds_report "all" 300 2%Q [letter_page] data
                plan report Hp Hr) as _.
  exists plan, report. split_and!; [done|done| |].
  - vm_compute in Hp. injection Hp as <-. reflexivity.
  - vm_compute in Hr. injection Hr as <-. reflexivity.
Defined.

(** ** streamlit_app.py: the selection of the UI *)

Lemma filter_word_ext k1 k2 w :
  (∀ t, t ∈ k1 ↔ t ∈ k2) → filter_word k1 w = filter_word k2 w.
Proof.
  intros Hk. unfold filter_word. destruct (pii w) as [a|]; [|done].
  destruct (negb (is_pii a)); [done|]. cbv zeta.
  destruct (decide (_normalize_type (type a) ∈ k1)) as [Hin|Hnot].
  - rewrite !bool_decide_eq_true_2; [done|by apply Hk|done].
  - rewrite !bool_decide_eq_false_2; [done|by rewrite <- Hk|done].
Qed.

Lemma filter_word_compose k1 k2 w :
  filter_word k2 (filter_word k1 w)
  = filter_word (List.filter (fun t => bool_decide (t ∈ k2)) k1) w.
Proof.
  set (k := List.filter (fun t => bool_decide (t ∈ k2)) k1).
  assert (Hk : ∀ t, t ∈ k ↔ t ∈ k1 ∧ t ∈ k2).
  { intros t. unfold k. rewrite in_list_filter, bool_decide_eq_true. done. }
  destruct (flagged w) eqn:Hf.
  2:{ by rewrite !(filter_word_unflagged _ w Hf). }
  destruct (decide (_normalize_type (pii_type w) ∈ k1)) as [H1|H1].
  - rewrite (filter_word_kept k1 w Hf H1).
    destruct (decide (_normalize_type (pii_type w) ∈ k2)) as [H2|H2].
    + rewrite (filter_word_kept k2 w Hf H2).
      symmetry. apply filter_word_kept; [done|]. by apply Hk.
    + destruct (filter_word_cleared k2 w Hf H2) as (a & Ha & ->).
      destruct (filter_word_cleared k w Hf) as (a' & Ha' & ->);
        [rewrite Hk; tauto|congruence].
  - destruct (filter_word_cleared k1 w Hf H1) as (a & Ha & ->).
    destruct (filter_word_cleared k w Hf) as (a' & Ha' & ->);
      [rewrite Hk; tauto|].
    rewrite filter_word_unflagged by done. congruence.
Qed.

Lemma filter_pii_words (f g : Word → Word) (doc : Document) :
  (∀ w, f w = g w) →
  (fun pg => mkPage (page pg) (width pg) (height pg) (f <$> words pg)) <$> doc
  = (fun pg => mkPage (page pg) (width pg) (height pg) (g <$> words pg))
      <$> doc.
Proof.
  intros Hfg. apply list_fmap_ext. intros _ pg _. f_equal.
  apply list_fmap_ext. intros _ w _. apply Hfg.
Qed.

(** X18 — the category filter with the selections the UI can build: the
    kept list holds only categories of the vocabulary, each at most once;
    with all eight boxes ticked the filter leaves the document as it is,
    with none ticked no token stays flagged; filtering with one selection
    and then with another is filtering once with the categories common to
    both; and only the set of kept categories matters, not their order or
    repetition. *)
Theorem filter_pii_with_ui_selection :
  (∀ n e p i a d pw o ty,
     ty ∈ keep_types_of n e p i a d pw o → ty ∈ VOCABULARY)
  ∧ (∀ n e p i a d pw o, NoDup (keep_types_of n e p i a d pw o))
  ∧ (∀ ty, ty ∈ keep_types_of true true true true true true true true
           ↔ ty ∈ VOCABULARY)
  ∧ (∀ doc : Document,
       filter_pii (keep_types_of true true true true true true true true) doc
       = doc)
  ∧ (∀ doc : Document,
       flagged_tokens
         (filter_pii
            (keep_types_of false false false false false false false false)
            doc) = [])
  ∧ (∀ k1 k2 (doc : Document),
       filter_pii k2 (filter_pii k1 doc)
       = filter_pii (List.filter (fun t => bool_decide (t ∈ k2)) k1) doc)
  ∧ (∀ k1 k2 (doc : Document),
       (∀ t, t ∈ k1 ↔ t ∈ k2) → filter_pii k1 doc = filter_pii k2 doc).
Proof.
  assert (Hall : ∀ ty, ty ∈ keep_types_of true true true true true true true true
                       ↔ ty ∈ VOCABULARY).
  { intros ty. unfold keep_types_of, VOCABULARY. cbn [app].
    rewrite !elem_of_cons, elem_of_nil, !elem_of_union, !elem_of_singleton.
    tauto. }
  assert (Hsub : ∀ n e p i a d pw o,
            keep_types_of n e p i a d pw o
            `sublist_of` keep_types_of true true true true true true true true).
  { intros n e p i a d pw o. unfold keep_types_of.
    repeat apply sublist_app;
      match goal with
      | |- (if ?b then _ else _) `sublist_of` _ =>
          destruct b; [done|apply sublist_nil_l]
      end. }
  split_and!.
  - intros n e p i a d pw o ty Hin. apply Hall.
    eapply elem_of_sublist; [exact Hin|apply Hsub].
  - intros n e p i a d pw o.
    eapply sublist_NoDup; [|apply Hsub].
    apply (bool_decide_unpack _). vm_compute. exact I.
  - exact Hall.
  - intros doc. unfold filter_pii.
    rewrite <- (list_fmap_id doc) at 2. apply list_fmap_ext.
    intros _ pg _. unfold filter_page. destruct pg as [pn wd ht ws].
    cbn. f_equal. rewrite <- (list_fmap_id ws) at 2. apply list_fmap_ext.
    intros _ w _. cbn. destruct (flagged w) eqn:Hf.
    + apply filter_word_kept; [done|]. apply Hall, normalize_in_vocabulary.
    + by apply filter_word_unflagged.
  - intros doc.
    change (keep_types_of false false false false false false false false)
      with (@nil string).
    induction doc as [|pg doc IH]; [done|].
    unfold filter_pii in *. rewrite fmap_cons, flagged_tokens_cons, IH.
    rewrite app_nil_r. unfold page_tokens.
    cut (List.filter (fun iw : nat * Word => flagged (snd iw))
           (Py.enumerate (words (filter_page [] pg))) = []); [by intros ->|].
    apply length_zero_iff_nil. unfold Py.enumerate.
    rewrite enumerate_flagged_length. cbn [filter_page words].
    induction (words pg) as [|w ws IHw]; [done|].
    rewrite fmap_cons. cbn [List.filter].
    destruct (flagged (filter_word [] w)) eqn:Hf; [|exact IHw].
    apply filter_word_flagged in Hf as [_ Hin]. by apply elem_of_nil in Hin.
  - intros k1 k2 doc. unfold filter_pii. rewrite <- list_fmap_compose.
    apply list_fmap_ext. intros _ pg _. unfold filter_page. cbn. f_equal.
    rewrite <- list_fmap_compose. apply list_fmap_ext. intros _ w _.
    apply filter_word_compose.
  - intros k1 k2 doc Hk. unfold filter_pii.
    apply list_fmap_ext. intros _ pg _. unfold filter_page. f_equal.
    apply list_fmap_ext. intros _ w _. by apply filter_word_ext.
Qed.

(** ** pos-ocr.py: the words of a page *)













(** ** The pipeline: pos-ocr.py, pii-identifier.py, the filter, redactor.py *)

Lemma posocr_main_pages (rendered : list PosOcr.Rendered) :
  page <$> PosOcr.main rendered
  = (fun k => Z.of_nat k + 1)%Z <$> seq 0 (length rendered).
Proof.
  unfold PosOcr.main, Py.enumerate. rewrite <- list_fmap_compose.
  rewrite <- (fst_zip (seq 0 (length rendered)) rendered) at 2
    by (rewrite length_seq; lia).
  rewrite <- list_fmap_compose. by apply list_fmap_ext.
Qed.

Lemma filter_pii_pages keep_types (data : Document) :
  page <$> filter_pii keep_types data = page <$> data.
Proof.
  unfold filter_pii. rewrite <- list_fmap_compose. by apply list_fmap_ext.
Qed.

Lemma tagged_pages `{Patterns} (remote : nat → nat → Reply) N k data out :
  tag_pages remote N k data = Some out → page <$> out = page <$> data.
Proof.
  intros Hrun. apply tag_pages_tagged in Hrun.
  induction Hrun as [|pg pg' data out [(Hp & _) _] _ IH]; [done|].
  rewrite !fmap_cons. by rewrite Hp, IH.
Qed.

Lemma redactor_main_pages {A} `{PyNum A} (types : string) (dpi : Z)
    (margin : A) (doc : list (Rect A)) (data : Document) plan :
  parse_types types ≠ ∅ →
  Redactor.main types dpi margin doc data = Some plan →
  fst <$> plan = page <$> List.filter (page_in_doc doc) data.
Proof.
  intros Hne. unfold Redactor.main. cbv zeta.
  rewrite bool_decide_eq_false_2 by done.
  destruct (scale_of_dpi dpi) as [scale|]; [|done]. intros [= <-].
  induction data as [|pinfo rest IH]; [done|].
  cbn [omap list_omap List.filter]. rewrite page_in_doc_skip.
  destruct (page_in_doc doc pinfo) eqn:Hin; cbn [negb]; [|exact IH].
  destruct (page_in_doc_lookup doc pinfo Hin) as [page_rect ->].
  cbn [fmap option_fmap option_map]. rewrite !fmap_cons. cbn [fst].
  f_equal. exact IH.
Qed.

Lemma filter_all {X} (p : X → bool) (l : list X) :
  Forall (fun x => p x = true) l → List.filter p l = l.
Proof.
  induction 1 as [|x l Hx _ IH]; [done|].
  cbn [List.filter]. by rewrite Hx, IH.
Qed.

Section Pipeline.
Context `{Patterns} {A : Type} `{PyNum A}.
Variable remote : nat → nat → Reply.

(** X20 — the stages chained as the UI chains them: [main] of pos-ocr.py
    numbers the pages of the positions document 1, 2, ... in the order of
    the PDF; the tagger and the category filter keep these numbers; and the
    redactor, run on the same PDF with at least one known type selected,
    then plans exactly one entry for every page of the PDF, in order: no
    page is skipped or planned twice. *)
Theorem pipeline_plans_every_page (rendered : list PosOcr.Rendered)
    (GEMINI_API_KEY : string) (N : Z) (keep_types : list string)
    (types : string) (dpi : Z) (margin : A) (doc : list (Rect A))
    (tagged : Document) (plan : list (Z * list (Rect A * string))) :
  length doc = length rendered →
  PiiIdentifier.main remote GEMINI_API_KEY N (PosOcr.main rendered)
  = Some tagged →
  parse_types types ≠ ∅ →
  Redactor.main types dpi margin doc (filter_pii keep_types tagged)
  = Some plan →
  page <$> PosOcr.main rendered
  = (fun k => Z.of_nat k + 1)%Z <$> seq 0 (length rendered)
  ∧ page <$> filter_pii keep_types tagged = page <$> PosOcr.main rendered
  ∧ fst <$> plan = (fun k => Z.of_nat k + 1)%Z <$> seq 0 (length rendered)
  ∧ length plan = length rendered.
Proof.
  intros Hdoc Htag Hne Hplan.
  assert (Hpages : page <$> filter_pii keep_types tagged
                   = page <$> PosOcr.main rendered).
  { rewrite filter_pii_pages. unfold PiiIdentifier.main in Htag.
    destruct (negb (Py.truthy GEMINI_API_KEY)); [done|].
    by eapply tagged_pages. }
  assert (Hplan' : fst <$> plan
                   = (fun k => Z.of_nat k + 1)%Z <$> seq 0 (length rendered)).
  { rewrite (redactor_main_pages _ _ _ _ _ _ Hne Hplan).
    rewrite filter_all; [by rewrite Hpages, posocr_main_pages|].
    apply Forall_forall. intros pg Hpg.
    assert (Hin : page pg ∈ page <$> filter_pii keep_types tagged).
    { apply list_elem_of_fmap. by exists pg. }
    rewrite Hpages, posocr_main_pages in Hin.
    apply list_elem_of_fmap in Hin as (k & Hk & Hseq).
    apply elem_of_seq in Hseq. unfold page_in_doc. lia. }
  split_and!; [apply posocr_main_pages|done|done|].
  apply (f_equal length) in Hplan'. by rewrite !length_fmap, length_seq in Hplan'.
Qed.

End Pipeline.

Lemma pipeline_plans_every_page_witness :
  let engine : Patterns :=
    {| EMAIL_RE := Py.contains "@";
       PHONE_RE := fun _ => false;
       IPV4_RE := fun _ => false |} in
  let remote := fun _ _ : nat => ReplyError in
  let row := PosOcr.mkOcrRow (Some " j@x.org ") (Some 91%Z) 100 50 40 10 in
  let rendered := [PosOcr.mkRendered 2550 3300 [];
                   PosOcr.mkRendered 2550 3300 [row]] in
  ∃ tagged plan,
    PiiIdentifier.main remote "key" 600 (PosOcr.main rendered) = Some tagged
    ∧ Redactor.main "all" 300 2%Q [letter_page; letter_page]
        (filter_pii ["email"] tagged) = Some plan
    ∧ plan_sizes plan = [(1%Z, 0%nat); (2%Z, 1%nat)].
Proof.
  intros engine remote row rendered.
  destruct (PiiIdentifier.main remote "key" 600 (PosOcr.main rendered))
    as [tagged|] eqn:Htag; [|discriminate Htag].
  destruct (Redactor.main "all" 300 2%Q [letter_page; letter_page]
              (filter_pii ["email"] tagged)) as [plan|] eqn:Hplan.
  2:{ vm_compute in Htag. injection Htag as <-. discriminate Hplan. }
  assert (Hne : parse_types "all" ≠ ∅).
  { intros Hempty. assert (Hin : "name" ∈ parse_types "all") by set_solver.
    rewrite Hempty in Hin. set_solver. }
  pose proof (pipeline_plans_every_page remote rendered "key" 600 ["email"]
                "all" 300 2%Q [letter_page; letter_page] tagged plan
                eq_refl Htag Hne Hplan) as _.
  exists tagged, plan. split_and!; [done|done|].
  vm_compute in Htag. injection Htag as <-.
  vm_compute in Hplan. injection Hplan as <-. reflexivity.
Defined.
